(** * Name changes: request lifecycle and account merge

    A shallow embedding of [server/src/api/modules/names/name.service.ts]
    (with the [Membership] model declaration) and the properties of its
    request workflow ([submit], [deny], [approve]), of the transactional
    merge ([transferData] and its four transfer steps) and of the preview
    ([getDetails]).

    Conventions.  An awaited call is a function of the database that
    returns a [result] and the database it leaves behind.  A model instance
    of a table with a surrogate primary key is the pair of that key and the
    row.  Dates are milliseconds since the epoch. *)

From Stdlib Require Import Ascii QArith_base.
From stdpp Require Import gmap strings list fin_maps sorting.

Open Scope string_scope.
Open Scope Z_scope.

(** ** Errors and results *)

(** The error classes of [api/errors], the runtime's [TypeError] and plain
    [Error], and the class of the errors the database layer raises. *)
Inductive error :=
| BadRequestError (message : string)
| NotFoundError (message : string)
| ServerError (message : string)
| TypeError (message : string)
| DatabaseError (message : string)
| Error (message : string).

(** The class of an error, as [instanceof] and the HTTP layer see it. *)
Inductive errorClass :=
  BadRequest | NotFound | Server | Type_ | Database | Plain.

#[global] Instance errorClass_eq_dec : EqDecision errorClass.
Proof. solve_decision. Defined.

#[global] Instance error_eq_dec : EqDecision error.
Proof. solve_decision. Defined.

Definition classOf (e : error) : errorClass :=
  match e with
  | BadRequestError _ => BadRequest
  | NotFoundError _ => NotFound
  | ServerError _ => Server
  | TypeError _ => Type_
  | DatabaseError _ => Database
  | Error _ => Plain
  end.

Definition messageOf (e : error) : string :=
  match e with
  | BadRequestError m | NotFoundError m | ServerError m
  | TypeError m | DatabaseError m | Error m => m
  end.

Inductive result (A : Type) :=
| Ok (a : A)
| Err (e : error).
Arguments Ok {A} a.
Arguments Err {A} e.

#[global] Instance result_ret : MRet result := fun _ a => Ok a.
#[global] Instance result_bind : MBind result := fun _ _ f r =>
  match r with
  | Ok a => f a
  | Err e => Err e
  end.

Definition isOk {A} (r : result A) : bool :=
  match r with Ok _ => true | Err _ => false end.

(** ** The data model *)

Module Player.
(** The columns of a player the service reads and writes. *)
Record t := mk { username : string; displayName : string }.

(** [player.username = n; player.displayName = n] *)
Definition rename (n : string) (p : t) : t :=
  {| username := n; displayName := n |}.
End Player.

Module NameChange.
Inductive Status := PENDING | DENIED | APPROVED.

#[global] Instance Status_eq_dec : EqDecision Status.
Proof. solve_decision. Defined.

Record t := mk {
  playerId : Z;
  oldName : string;
  newName : string;
  status : Status;
  resolvedAt : option Z;
  createdAt : Z
}.

Definition set_status (s : Status) (r : t) : t :=
  {| playerId := playerId r; oldName := oldName r; newName := newName r;
     status := s; resolvedAt := resolvedAt r; createdAt := createdAt r |}.

Definition set_resolvedAt (d : option Z) (r : t) : t :=
  {| playerId := playerId r; oldName := oldName r; newName := newName r;
     status := status r; resolvedAt := d; createdAt := createdAt r |}.

(** [findOne({ where: { id } })] *)
Definition findOne (id : Z) (tbl : gmap Z t) : option (Z * t) :=
  (fun r => (id, r)) <$> tbl !! id.

(** [findOne({ where: { oldName, newName, status } })] *)
Definition findOneWhere (o n : string) (s : Status) (tbl : gmap Z t)
  : option (Z * t) :=
  snd <$> list_find
    (fun ir : Z * t => oldName ir.2 = o ∧ newName ir.2 = n ∧ status ir.2 = s)
    (map_to_list tbl).

(** Modelled from the spec: the defaults of the [NameChange] model, whose
    declaration is not part of the sources.  A created request is PENDING
    and unresolved; the key it receives is one no row uses. *)
Definition create (pid : Z) (o n : string) (now : Z) (tbl : gmap Z t)
  : (Z * t) * gmap Z t :=
  let id := fresh (dom tbl) in
  let r := {| playerId := pid; oldName := o; newName := n;
              status := PENDING; resolvedAt := None; createdAt := now |} in
  ((id, r), <[id := r]> tbl).

(** [instance.save()] after assignments: an UPDATE of the row with the
    instance's key. *)
Definition save (id : Z) (change : t → t) (tbl : gmap Z t) : gmap Z t :=
  alter change id tbl.
End NameChange.

Module Snapshot.
Record t := mk {
  id : Z;
  playerId : Z;
  createdAt : Z;
  metrics : list (string * Z)
}.

(** A snapshot about to be inserted: every column but the generated [id]. *)
Record attrs := mkAttrs {
  a_playerId : Z;
  a_createdAt : Z;
  a_metrics : list (string * Z)
}.

(** [omit({ ...s.toJSON(), playerId: targetId }, 'id')] *)
Definition moved (targetId : Z) (s : t) : attrs :=
  {| a_playerId := targetId; a_createdAt := createdAt s;
     a_metrics := metrics s |}.

(** The key the sequence of the table generates next. *)
Definition nextId (tbl : list t) : Z := 1 + foldr Z.max 0 (id <$> tbl).

Definition store (tbl : list t) (a : attrs) : t :=
  {| id := nextId tbl; playerId := a_playerId a;
     createdAt := a_createdAt a; metrics := a_metrics a |}.

(** Modelled from the spec: the unique index of the [Snapshot] model, whose
    declaration is not part of the sources, is (identityId, createdAt). *)
Definition key (s : t) : Z * Z := (playerId s, createdAt s).
Definition akey (a : attrs) : Z * Z := (a_playerId a, a_createdAt a).

Definition findAll (where_ : t → bool) (tbl : list t) : list t :=
  base.filter (fun s => where_ s = true) tbl.
End Snapshot.

Module Participation.
(** Modelled from the spec: the [Participation] model, whose declaration
    is not part of the sources, has the columns
    {identityId, eventId, createdAt} and the natural key
    (identityId, eventId). *)
Record t := mk {
  playerId : Z;
  eventId : Z;
  createdAt : Z
}.

(** [{ ...ns.toJSON(), playerId: targetId }] *)
Definition moved (targetId : Z) (p : t) : t :=
  {| playerId := targetId; eventId := eventId p; createdAt := createdAt p |}.

Definition key (p : t) : Z * Z := (playerId p, eventId p).

Definition findAll (where_ : t → bool) (tbl : list t) : list t :=
  base.filter (fun p => where_ p = true) tbl.
End Participation.

Module Membership.
(** The columns of the decorated class; the unique index is on
    [playerId, groupId], and a membership goes with its player
    ([onDelete: 'CASCADE']). *)
Record t := mk {
  playerId : Z;
  groupId : Z;
  role : string;
  createdAt : Z;
  updatedAt : Z
}.

(** [{ ...ns.toJSON(), playerId: targetId }] *)
Definition moved (targetId : Z) (m : t) : t :=
  {| playerId := targetId; groupId := groupId m; role := role m;
     createdAt := createdAt m; updatedAt := updatedAt m |}.

Definition key (m : t) : Z * Z := (playerId m, groupId m).

Definition findAll (where_ : t → bool) (tbl : list t) : list t :=
  base.filter (fun m => where_ m = true) tbl.

(** The rows a deleted player takes along. *)
Definition cascade (pid : Z) (tbl : list t) : list t :=
  base.filter (fun m => playerId m ≠ pid) tbl.
End Membership.

Module Record_.
(** Modelled from the spec: the [Record] model, whose declaration is not
    part of the sources, is the BestRecordRow
    {identityId, metric, period, value, updatedAt}, the best value of a
    player for a metric and a period. *)
Record t := mk {
  playerId : Z;
  metric : string;
  period : string;
  value : Z;
  updatedAt : Z
}.

Definition set_value (v : Z) (r : t) : t :=
  {| playerId := playerId r; metric := metric r; period := period r;
     value := v; updatedAt := updatedAt r |}.

Definition findAll (where_ : t → bool) (tbl : gmap Z t) : list (Z * t) :=
  base.filter (fun ir : Z * t => where_ ir.2 = true) (map_to_list tbl).

Definition set_updatedAt (d : Z) (r : t) : t :=
  {| playerId := playerId r; metric := metric r; period := period r;
     value := value r; updatedAt := d |}.

(** [record.update({ value: newValue })]: an UPDATE of the row with the
    instance's key, which sets the value and, as every update of a model
    with timestamps does, [updatedAt] to the time of the call. *)
Definition update (id : Z) (newValue : Z) (now : Z) (tbl : gmap Z t)
  : gmap Z t :=
  alter (fun r => set_updatedAt now (set_value newValue r)) id tbl.
End Record_.

(** The tables. *)
Record DB := mkDB {
  players : gmap Z Player.t;
  nameChanges : gmap Z NameChange.t;
  snapshots : list Snapshot.t;
  participations : list Participation.t;
  memberships : list Membership.t;
  records : gmap Z Record_.t
}.

Definition set_players (v : gmap Z Player.t) (db : DB) : DB :=
  {| players := v; nameChanges := nameChanges db; snapshots := snapshots db;
     participations := participations db; memberships := memberships db;
     records := records db |}.

Definition set_nameChanges (v : gmap Z NameChange.t) (db : DB) : DB :=
  {| players := players db; nameChanges := v; snapshots := snapshots db;
     participations := participations db; memberships := memberships db;
     records := records db |}.

Definition set_snapshots (v : list Snapshot.t) (db : DB) : DB :=
  {| players := players db; nameChanges := nameChanges db; snapshots := v;
     participations := participations db; memberships := memberships db;
     records := records db |}.

Definition set_participations (v : list Participation.t) (db : DB) : DB :=
  {| players := players db; nameChanges := nameChanges db;
     snapshots := snapshots db; participations := v;
     memberships := memberships db; records := records db |}.

Definition set_memberships (v : list Membership.t) (db : DB) : DB :=
  {| players := players db; nameChanges := nameChanges db;
     snapshots := snapshots db; participations := participations db;
     memberships := v; records := records db |}.

Definition set_records (v : gmap Z Record_.t) (db : DB) : DB :=
  {| players := players db; nameChanges := nameChanges db;
     snapshots := snapshots db; participations := participations db;
     memberships := memberships db; records := v |}.

(** ** Insertion that ignores duplicates

    [Model.bulkCreate(rows, { ignoreDuplicates: true })]: one INSERT whose
    rows are taken in order, a row that collides on the unique index with a
    stored row, or with a row taken before it, being skipped. *)
Section BulkCreate.
Context {R A K : Type} `{EqDecision K}.
Variable key : R → K.
Variable akey : A → K.
Variable store : list R → A → R.

Definition conflicts (tbl : list R) (a : A) : bool :=
  bool_decide (akey a ∈ key <$> tbl).

Definition insertIgnore (tbl : list R) (a : A) : list R :=
  if conflicts tbl a then tbl else tbl ++ [store tbl a].

Definition bulkCreate (rows : list A) (tbl : list R) : list R :=
  foldl insertIgnore tbl rows.
End BulkCreate.

(** ** Collaborating services *)

Module playerService.
(** Modelled from the spec: [playerService.find], which is not part of the
    sources, is the identity lookup [findByName]: the tracked player whose
    current name is the given one, if there is one. *)
Definition find (name : string) (db : DB) : option (Z * Player.t) :=
  snd <$> list_find (fun ip : Z * Player.t => Player.username ip.2 = name)
    (map_to_list (players db)).
End playerService.

Module snapshotService.
Definition later (s : Snapshot.t) (best : option Snapshot.t)
  : option Snapshot.t :=
  match best with
  | None => Some s
  | Some b =>
      if bool_decide (Snapshot.createdAt b < Snapshot.createdAt s)
      then Some s else Some b
  end.

(** Modelled from the spec: [snapshotService.findLatest], which is not part
    of the sources, returns the player's most recent snapshot, or nothing
    when the player has none. *)
Definition findLatest (pid : Z) (db : DB) : option Snapshot.t :=
  foldr later None
    (base.filter (fun s => Snapshot.playerId s = pid) (snapshots db)).

Definition earlier (s : Snapshot.t) (best : option Snapshot.t)
  : option Snapshot.t :=
  match best with
  | None => Some s
  | Some b =>
      if bool_decide (Snapshot.createdAt s < Snapshot.createdAt b)
      then Some s else Some b
  end.

(** Modelled from the spec: [snapshotService.findFirstSince], which is not
    part of the sources, returns the player's first snapshot created at
    or after the given date. *)
Definition findFirstSince (pid : Z) (date : Z) (db : DB)
  : option Snapshot.t :=
  foldr earlier None
    (base.filter
       (fun s => Snapshot.playerId s = pid ∧ date ≤ Snapshot.createdAt s)
       (snapshots db)).
End snapshotService.

(** ** The service *)

(** The awaited steps of the merge, each of which the database may reject;
    the last is the rollback of the [catch] block. *)
Inductive step :=
| AtBegin
| AtFindLatest
| AtTransferRecords
| AtTransferSnapshots
| AtTransferMemberships
| AtTransferParticipations
| AtDestroy
| AtSave
| AtCommit
| AtRollback.

(** Which steps are rejected, and with what. *)
Definition faults := step → option error.

Definition noFaults : faults := fun _ => None.

(** An awaited step: rejected with the planned error, or fulfilled. *)
Definition await {A} (ft : faults) (s : step) (a : A) : result A :=
  match ft s with
  | Some e => Err e
  | None => Ok a
  end.

(** [{ playerId, createdAt: { [Op.gte]: transitionDate } }] and
    [{ playerId, updatedAt: { [Op.gte]: transitionDate } }].  The column the
    bound applies to goes with the step that receives the filter, as
    [transferData] builds them: [updatedAt] for the records, [createdAt] for
    the snapshots, memberships and participations. *)
Record WhereOptions := mkWhere {
  where_playerId : Z;
  where_gte : option Z
}.

Section Service.
(** [env.ADMIN_PASSWORD] *)
Variable ADMIN_PASSWORD : string.
(** [playerService.standardize] *)
Variable standardize : string → string.
(** What [Op.gte] selects when its bound is [undefined] (the donor has no
    snapshot): every row, or none. *)
Variable gteUndefined : bool.

Definition gte (bound : option Z) (d : Z) : bool :=
  match bound with
  | Some t => bool_decide (t ≤ d)
  | None => gteUndefined
  end.

Definition selects (filter : WhereOptions) (pid date : Z) : bool :=
  bool_decide (pid = where_playerId filter) && gte (where_gte filter) date.

(** *** The transfer steps

    Every [findAll] is issued without the transaction and reads the
    committed tables; every write goes to the transaction. *)

Definition transferSnapshots (filter : WhereOptions) (targetId : Z)
    (committed work : DB) : DB :=
  let newSnapshots :=
    Snapshot.findAll
      (fun s => selects filter (Snapshot.playerId s) (Snapshot.createdAt s))
      (snapshots committed) in
  let movedSnapshots := Snapshot.moved targetId <$> newSnapshots in
  set_snapshots
    (bulkCreate Snapshot.key Snapshot.akey Snapshot.store
       movedSnapshots (snapshots work))
    work.

Definition transferParticipations (filter : WhereOptions) (targetId : Z)
    (committed work : DB) : DB :=
  let newParticipations :=
    Participation.findAll
      (fun p => selects filter (Participation.playerId p)
                  (Participation.createdAt p))
      (participations committed) in
  let movedParticipations :=
    Participation.moved targetId <$> newParticipations in
  set_participations
    (bulkCreate Participation.key Participation.key (fun _ p => p)
       movedParticipations (participations work))
    work.

Definition transferMemberships (filter : WhereOptions) (targetId : Z)
    (committed work : DB) : DB :=
  let newMemberships :=
    Membership.findAll
      (fun m => selects filter (Membership.playerId m)
                  (Membership.createdAt m))
      (memberships committed) in
  let movedMemberships := Membership.moved targetId <$> newMemberships in
  set_memberships
    (bulkCreate Membership.key Membership.key (fun _ m => m)
       movedMemberships (memberships work))
    work.

(** [oldRecords.find(r => r.metric === n.metric && r.period === n.period)] *)
Definition oldEquivalent (oldRecords : list (Z * Record_.t))
    (n : Record_.t) : option (Z * Record_.t) :=
  snd <$> list_find
    (fun r : Z * Record_.t =>
       Record_.metric r.2 = Record_.metric n
       ∧ Record_.period r.2 = Record_.period n)
    oldRecords.

(** The old records a new record outdates, with the value to give them. *)
Definition outdatedBy (oldRecords : list (Z * Record_.t))
    (n : Z * Record_.t) : list ((Z * Record_.t) * Z) :=
  match oldEquivalent oldRecords n.2 with
  | Some o =>
      if bool_decide (Record_.value o.2 < Record_.value n.2)
      then [(o, Record_.value n.2)] else []
  | None => []
  end.

(** The list [outdated] that the [forEach] over the new records builds. *)
Definition outdated (filter : WhereOptions) (targetId : Z) (committed : DB)
    : list ((Z * Record_.t) * Z) :=
  let oldRecords :=
    Record_.findAll (fun r => bool_decide (Record_.playerId r = targetId))
      (records committed) in
  let newRecords :=
    Record_.findAll
      (fun r => selects filter (Record_.playerId r) (Record_.updatedAt r))
      (records committed) in
  newRecords ≫= outdatedBy oldRecords.

(** [await Promise.all(outdated.map(... record.update({ value: newValue },
    { transaction })))]: the updates are issued in the order of the list,
    all within the one step, whose time is [now]. *)
Definition transferRecords (now : Z) (filter : WhereOptions) (targetId : Z)
    (committed work : DB) : DB :=
  set_records
    (foldl (fun tbl u => Record_.update (u.1).1 u.2 now tbl)
       (records work) (outdated filter targetId committed))
    work.

(** [newPlayer.destroy({ transaction })]: the row of the player is deleted,
    and with it his memberships, whose foreign key is declared
    [onDelete: 'CASCADE'].

    Modelled from the spec: the foreign keys of the snapshots, participations
    and records are declared in models that are not part of the sources.  By
    the spec the merge destroys the recipient Identity row, and history
    entries persist: the deletion leaves these three tables as they are. *)
Definition destroy (id : Z) (work : DB) : DB :=
  set_memberships (Membership.cascade id (memberships work))
    (set_players (delete id (players work)) work).

(** [oldPlayer.save({ transaction })] after the two assignments: an UPDATE
    of the row with the instance's key. *)
Definition save (id : Z) (name : string) (work : DB) : DB :=
  set_players (alter (Player.rename name) id (players work)) work.

(** *** The merge *)

(** The body of the [try] block, up to the commit. *)
Definition transferBody (ft : faults) (now : Z) (transitionDate : option Z)
    (standardizedName : string) (oldPlayer : Z * Player.t)
    (newPlayer : option (Z * Player.t)) (db : DB) : result DB :=
  work ← match newPlayer with
         | Some np =>
             let createdFilter :=
               {| where_playerId := np.1; where_gte := transitionDate |} in
             let updatedFilter :=
               {| where_playerId := np.1; where_gte := transitionDate |} in
             w1 ← await ft AtTransferRecords
                    (transferRecords now updatedFilter oldPlayer.1 db db);
             w2 ← await ft AtTransferSnapshots
                    (transferSnapshots createdFilter oldPlayer.1 db w1);
             w3 ← await ft AtTransferMemberships
                    (transferMemberships createdFilter oldPlayer.1 db w2);
             w4 ← await ft AtTransferParticipations
                    (transferParticipations createdFilter oldPlayer.1 db w3);
             await ft AtDestroy (destroy np.1 w4)
         | None => Ok db
         end;
  await ft AtSave (save oldPlayer.1 standardizedName work).

(** The error of the library for the rollback of a transaction that a
    commit has finished. *)
Definition finishedByCommit : error :=
  Error ("Transaction cannot be rolled back because it has been finished "
         +:+ "with state: commit").

(** [transaction.rollback()].  A transaction is finished by its commit,
    fulfilled or rejected, and the library rejects the rollback of a
    finished transaction; the rollback of an open one is a step that the
    database may reject. *)
Definition rollback (ft : faults) (finished : bool) : result unit :=
  if finished then Err finishedByCommit else await ft AtRollback tt.

(** [catch (e) { await transaction.rollback(); throw e; }]: the error
    thrown is [e] if the rollback is fulfilled, and else the error of the
    rollback. *)
Definition rethrown (ft : faults) (finished : bool) (e : error) : error :=
  match rollback ft finished with
  | Ok _ => e
  | Err e' => e'
  end.

(** [transferData].  The transaction is begun and the latest snapshot of
    the old player is read before the [try] block: an error of either is
    thrown as it is, with no rollback.  The writes of the block go to the
    transaction: the tables are those the block leaves once the commit is
    fulfilled, and those before the call in every other case. *)
Definition transferData (ft : faults) (now : Z) (oldPlayer : Z * Player.t)
    (newPlayer : option (Z * Player.t)) (newName : string) (db : DB)
    : result unit * DB :=
  match await ft AtBegin tt with
  | Err e => (Err e, db)
  | Ok _ =>
      match await ft AtFindLatest
              (Snapshot.createdAt <$> snapshotService.findLatest oldPlayer.1 db)
      with
      | Err e => (Err e, db)
      | Ok transitionDate =>
          let standardizedName := standardize newName in
          match transferBody ft now transitionDate standardizedName
                  oldPlayer newPlayer db with
          | Ok work =>
              match await ft AtCommit work with
              | Ok work => (Ok tt, work)
              | Err e => (Err (rethrown ft true e), db)
              end
          | Err e => (Err (rethrown ft false e), db)
          end
      end
  end.

(** *** The request lifecycle *)

Definition notTracked (oldName : string) : error :=
  BadRequestError ("Player '" +:+ oldName +:+ "' is not tracked yet.").
Definition similarPending : error :=
  BadRequestError "There's already a similar pending name change request.".
Definition idNotFound : error :=
  NotFoundError "Name change id was not found.".
Definition notPending : error :=
  BadRequestError "Name change status must be PENDING".
Definition incorrectPassword : error :=
  BadRequestError "Incorrect password.".
Definition oldPlayerGone : error :=
  ServerError "Old Player cannot be found in the database anymore.".

Definition submit (now : Z) (oldName newName : string) (db : DB)
    : result (Z * NameChange.t) * DB :=
  match playerService.find oldName db with
  | None => (Err (notTracked oldName), db)
  | Some oldPlayer =>
      match NameChange.findOneWhere oldName newName NameChange.PENDING
              (nameChanges db) with
      | Some _ => (Err similarPending, db)
      | None =>
          let created :=
            NameChange.create oldPlayer.1 oldName newName now
              (nameChanges db) in
          (Ok created.1, set_nameChanges created.2 db)
      end
  end.

Definition deny (id : Z) (adminPassword : string) (db : DB)
    : result (Z * NameChange.t) * DB :=
  match NameChange.findOne id (nameChanges db) with
  | None => (Err idNotFound, db)
  | Some nameChange =>
      if bool_decide (NameChange.status nameChange.2 ≠ NameChange.PENDING)
      then (Err notPending, db)
      else if bool_decide (adminPassword ≠ ADMIN_PASSWORD)
      then (Err incorrectPassword, db)
      else
        let change := NameChange.set_status NameChange.DENIED in
        (Ok (nameChange.1, change nameChange.2),
         set_nameChanges
           (NameChange.save nameChange.1 change (nameChanges db)) db)
  end.

Definition approve (ft : faults) (now : Z) (id : Z) (adminPassword : string)
    (db : DB) : result (Z * NameChange.t) * DB :=
  match NameChange.findOne id (nameChanges db) with
  | None => (Err idNotFound, db)
  | Some nameChange =>
      if bool_decide (NameChange.status nameChange.2 ≠ NameChange.PENDING)
      then (Err notPending, db)
      else if bool_decide (adminPassword ≠ ADMIN_PASSWORD)
      then (Err incorrectPassword, db)
      else
        let oldPlayer :=
          playerService.find (NameChange.oldName nameChange.2) db in
        let newPlayer :=
          playerService.find (NameChange.newName nameChange.2) db in
        match oldPlayer with
        | None => (Err oldPlayerGone, db)
        | Some oldPlayer =>
            match transferData ft now oldPlayer newPlayer
                    (NameChange.newName nameChange.2) db with
            | (Err e, db') => (Err e, db')
            | (Ok _, db') =>
                let change r :=
                  NameChange.set_resolvedAt (Some now)
                    (NameChange.set_status NameChange.APPROVED r) in
                (Ok (nameChange.1, change nameChange.2),
                 set_nameChanges
                   (NameChange.save nameChange.1 change (nameChanges db'))
                   db')
            end
        end
  end.
End Service.

(** ** The preview of a request *)

Module Details.
(** A snapshot instance: loaded from the table, or built from hiscores
    data and not saved (it then has no creation date). *)
Record stats := mkStats {
  s_playerId : Z;
  s_createdAt : option Z;
  s_metrics : list (string * Z)
}.

Definition loaded (s : Snapshot.t) : stats :=
  {| s_playerId := Snapshot.playerId s;
     s_createdAt := Some (Snapshot.createdAt s);
     s_metrics := Snapshot.metrics s |}.

(** The [data] of the returned object.  The quotients are exact where the
    service computes with doubles. *)
Record t (Formatted : Type) := mk {
  isNewOnHiscores : bool;
  isOldOnHiscores : bool;
  isNewTracked : bool;
  hasNegativeGains : bool;
  timeDiff : Z;
  hoursDiff : Q;
  ehpDiff : Q;
  ehbDiff : Q;
  oldStats : Formatted;
  newStats : Formatted
}.
Arguments mk {Formatted}.
End Details.

Section Reporter.
(** [playerService.getHiscoresData] *)
Variable getHiscoresData : string → result string.
(** [snapshotService.fromRS], [snapshotService.hasNegativeGains] and
    [snapshotService.format] *)
Variable fromRS : Z → string → Details.stats.
Variable hasNegativeGains : Details.stats → Details.stats → bool.
Variable Formatted : Type.
Variable format : option Details.stats → Formatted.
(** [efficiencyService.calculateEHPDiff] and [calculateEHBDiff] *)
Variable calculateEHPDiff : Details.stats → Details.stats → Q.
Variable calculateEHBDiff : Details.stats → Details.stats → Q.

(** [try { h = await getHiscoresData(name) }
     catch (e) { if (e instanceof ServerError) throw e; }] *)
Definition tryHiscores (name : string) : result (option string) :=
  match getHiscoresData name with
  | Ok h => Ok (Some h)
  | Err e => if bool_decide (classOf e = Server) then Err e else Ok None
  end.

(** The truthiness of hiscores data: of a string, that it is not empty. *)
Definition truthy (h : option string) : bool :=
  match h with
  | Some s => bool_decide (s ≠ EmptyString)
  | None => false
  end.

Definition nullId : error := TypeError "Cannot read property 'id' of null".
Definition nullCreatedAt : error :=
  TypeError "Cannot read property 'createdAt' of null".

Definition getDetails (now : Z) (id : Z) (db : DB)
    : result ((Z * NameChange.t) * Details.t Formatted) :=
  match NameChange.findOne id (nameChanges db) with
  | None => Err idNotFound
  | Some nameChange =>
      newHiscores ← tryHiscores (NameChange.newName nameChange.2);
      oldHiscores ← tryHiscores (NameChange.oldName nameChange.2);
      let oldPlayer :=
        playerService.find (NameChange.oldName nameChange.2) db in
      let newPlayer :=
        playerService.find (NameChange.newName nameChange.2) db in
      match oldPlayer with
      | None => Err nullId
      | Some oldPlayer =>
          let oldStats := snapshotService.findLatest oldPlayer.1 db in
          let newStats :=
            if truthy newHiscores then fromRS (-1) <$> newHiscores
            else None in
          newStats ←
            match newPlayer with
            | Some np =>
                match oldStats with
                | None => Err nullCreatedAt
                | Some os =>
                    match snapshotService.findFirstSince np.1
                            (Snapshot.createdAt os) db with
                    | Some postChangeSnapshot =>
                        Ok (Some (Details.loaded postChangeSnapshot))
                    | None => Ok newStats
                    end
                end
            | None => Ok newStats
            end;
          match oldStats with
          | None => Err nullCreatedAt
          | Some os =>
              let afterDate :=
                default now (newStats ≫= Details.s_createdAt) in
              let timeDiff := afterDate - Snapshot.createdAt os in
              let hoursDiff :=
                Qdiv (Qdiv (Qdiv (inject_Z timeDiff) (inject_Z 1000))
                        (inject_Z 60)) (inject_Z 60) in
              let old := Details.loaded os in
              let diff (f : Details.stats → Details.stats → Q) :=
                match newStats with
                | Some ns => f old ns
                | None => inject_Z 0
                end in
              Ok (nameChange,
                  Details.mk
                    (truthy newHiscores)
                    (truthy oldHiscores)
                    (bool_decide (is_Some newPlayer))
                    (match newStats with
                     | Some ns => hasNegativeGains old ns
                     | None => false
                     end)
                    timeDiff hoursDiff
                    (diff calculateEHPDiff) (diff calculateEHBDiff)
                    (format (Some old)) (format newStats))
          end
      end
  end.
End Reporter.

(** ** Sequences of calls *)

Inductive call :=
| Submit (now : Z) (oldName newName : string)
| Deny (id : Z) (adminPassword : string)
| Approve (ft : faults) (now : Z) (id : Z) (adminPassword : string).

Section Runs.
Variable ADMIN_PASSWORD : string.
Variable standardize : string → string.
Variable gteUndefined : bool.

(** The database a call leaves behind, whether it returns or throws. *)
Definition exec (c : call) (db : DB) : DB :=
  match c with
  | Submit now o n => (submit now o n db).2
  | Deny id pw => (deny ADMIN_PASSWORD id pw db).2
  | Approve ft now id pw =>
      (approve ADMIN_PASSWORD standardize gteUndefined ft now id pw db).2
  end.

Definition run (cs : list call) (db : DB) : DB :=
  foldl (fun d c => exec c d) db cs.
End Runs.

(** ** A small database

    Bob (player 1) was last seen at 1000; Bobby (player 2) has been tracked
    since.  Request 1 asks to rename bob to bobby and is pending, request 2
    was denied, request 3 names a player who is not tracked any more, and
    requests 4 and 5 name a tracked player without snapshots. *)
Module Sample.
Definition bob : Player.t := Player.mk "bob" "bob".
Definition bobby : Player.t := Player.mk "bobby" "bobby".
Definition alice : Player.t := Player.mk "alice" "alice".

Definition request (pid : Z) (o n : string) (s : NameChange.Status)
  : NameChange.t :=
  NameChange.mk pid o n s None 500.

Definition db : DB :=
  {| players := <[1 := bob]> (<[2 := bobby]> (<[3 := alice]> ∅));
     nameChanges :=
       <[1 := request 1 "bob" "bobby" NameChange.PENDING]>
         (<[2 := request 1 "bob" "bobbie" NameChange.DENIED]>
            (<[3 := request 9 "zezima" "bobby" NameChange.PENDING]>
               (<[4 := request 3 "alice" "bobby" NameChange.PENDING]>
                  (<[5 := request 3 "alice" "Alicia" NameChange.PENDING]>
                     ∅))));
     snapshots :=
       [Snapshot.mk 1 1 1000 [("attack", 70)];
        Snapshot.mk 2 2 900 [("attack", 1)];
        Snapshot.mk 3 2 1000 [("attack", 2)];
        Snapshot.mk 4 2 3000 [("attack", 75)]];
     participations :=
       [Participation.mk 2 11 2500; Participation.mk 1 11 400;
        Participation.mk 2 12 2600; Participation.mk 2 13 100];
     memberships :=
       [Membership.mk 2 7 "member" 2000 2000;
        Membership.mk 1 8 "leader" 100 100;
        Membership.mk 2 8 "member" 2100 2100];
     records :=
       <[1 := Record_.mk 1 "attack" "week" 100 900]>
         (<[2 := Record_.mk 2 "attack" "week" 150 2000]>
            (<[3 := Record_.mk 2 "strength" "week" 50 2500]>
               (<[4 := Record_.mk 1 "attack" "day" 30 900]>
                  (<[5 := Record_.mk 2 "attack" "day" 20 2500]> ∅)))) |}.

Definition password : string := "hunter2".

(** A single tracked player and no request yet. *)
Definition lone : DB :=
  {| players := <[1 := bob]> ∅;
     nameChanges := ∅;
     snapshots := [Snapshot.mk 1 1 1000 [("attack", 70)]];
     participations := [];
     memberships := [];
     records := <[1 := Record_.mk 1 "attack" "week" 100 900]> ∅ |}.

(** A stand-in for [playerService.standardize]: lower case. *)
Definition lowerAscii (c : ascii) : ascii :=
  let n := nat_of_ascii c in
  if Nat.leb 65 n && Nat.leb n 90 then ascii_of_nat (n + 32) else c.

Fixpoint lower (s : string) : string :=
  match s with
  | EmptyString => EmptyString
  | String c s' => String (lowerAscii c) (lower s')
  end.




(** Hiscores that know nobody. *)
Definition noHiscores (name : string) : result string :=
  Err (BadRequestError "Failed to load hiscores: Player not found.").

(** Hiscores that answer with no data. *)
Definition emptyHiscores (name : string) : result string := Ok EmptyString.
End Sample.

(** ** Notions the properties are stated with *)

(** How a request of one state of the database may read in a later one:
    unchanged, or, if it was PENDING, denied, or approved and resolved. *)
Inductive evolves (r : NameChange.t) : NameChange.t → Prop :=
| evolves_same : evolves r r
| evolves_denied :
    NameChange.status r = NameChange.PENDING →
    evolves r (NameChange.set_status NameChange.DENIED r)
| evolves_approved now :
    NameChange.status r = NameChange.PENDING →
    evolves r (NameChange.set_resolvedAt (Some now)
                 (NameChange.set_status NameChange.APPROVED r)).

(** The value the row of key [i] ends with, from the value [v0] it has,
    when the updates [us] are applied in order. *)
Definition finalValue (i : Z) (us : list ((Z * Record_.t) * Z)) (v0 : Z) : Z :=
  foldl (fun v u => if decide ((u.1).1 = i) then u.2 else v) v0 us.

(** The record that the row [r] of key [i] ends as when the updates [us]
    are applied in order at the time [now]: the row itself if none of them
    is for it, and else the row with the last of their values and with
    [now] for date. *)
Definition raised (now : Z) (i : Z) (us : list ((Z * Record_.t) * Z))
    (r : Record_.t) : Record_.t :=
  if bool_decide (Exists (fun u : (Z * Record_.t) * Z => (u.1).1 = i) us)
  then Record_.set_updatedAt now
         (Record_.set_value (finalValue i us (Record_.value r)) r)
  else r.

(** At most one record for a player, a metric and a period. *)
Definition uniqueRecords (tbl : gmap Z Record_.t) : Prop :=
  ∀ i j ri rj,
    tbl !! i = Some ri → tbl !! j = Some rj →
    Record_.playerId ri = Record_.playerId rj →
    Record_.metric ri = Record_.metric rj →
    Record_.period ri = Record_.period rj →
    i = j.

(** The columns that identify a record: its player, metric and period. *)
Definition recordKey (r : Record_.t) : Z * string * string :=
  (Record_.playerId r, Record_.metric r, Record_.period r).

(** The player has a record for the metric and the period. *)
Definition hasRecord (tbl : gmap Z Record_.t) (pid : Z) (m p : string) : Prop :=
  ∃ i r, tbl !! i = Some r ∧ recordKey r = (pid, m, p).

(** Two record tables with the same rows up to their values. *)
Definition sameRecordKeys (tbl tbl' : gmap Z Record_.t) : Prop :=
  dom tbl' = dom tbl
  ∧ (∀ i, recordKey <$> tbl' !! i = recordKey <$> tbl !! i)
  ∧ (∀ pid m p, hasRecord tbl' pid m p ↔ hasRecord tbl pid m p).

(** The row [r] is the row [s] re-inserted for [targetId]: it has the
    columns of [s], but for its owner, and for the generated key of a
    snapshot. *)
Definition snapshotCopy (targetId : Z) (r s : Snapshot.t) : Prop :=
  Snapshot.playerId r = targetId
  ∧ Snapshot.createdAt r = Snapshot.createdAt s
  ∧ Snapshot.metrics r = Snapshot.metrics s.

Definition participationCopy (targetId : Z) (r s : Participation.t) : Prop :=
  Participation.playerId r = targetId
  ∧ Participation.eventId r = Participation.eventId s
  ∧ Participation.createdAt r = Participation.createdAt s.

Definition membershipCopy (targetId : Z) (r s : Membership.t) : Prop :=
  Membership.playerId r = targetId
  ∧ Membership.groupId r = Membership.groupId s
  ∧ Membership.role r = Membership.role s
  ∧ Membership.createdAt r = Membership.createdAt s
  ∧ Membership.updatedAt r = Membership.updatedAt s.

(** What a transfer from the rows of [rid] dated [tr] or later to
    [targetId] makes of a table whose unique index is the owner and one more
    column, [copy] telling when a row is another re-inserted: the rows there
    were stay, in place; each row that comes after them is a copy of a row
    of [rid] dated [tr] or later; for each such row of [rid] its key, with
    [targetId] for owner, is in the table, and a copy of a row of [rid] with
    that key and such a date is in the table if the key was not there
    before; and no key comes to be used twice. *)
Definition transferred {R K : Type} (key : R → Z * K) (date : R → Z)
    (copy : Z → R → R → Prop) (rid tr targetId : Z)
    (before after : list R) : Prop :=
  (∃ extra : list R,
     after = (before ++ extra)%list
     ∧ ∀ r, r ∈ extra →
         (key r).1 = targetId
         ∧ ∃ s, s ∈ before ∧ (key s).1 = rid ∧ tr ≤ date s
                ∧ copy targetId r s)
  ∧ (∀ s, s ∈ before → (key s).1 = rid → tr ≤ date s →
       (targetId, (key s).2) ∈ key <$> after
       ∧ ((targetId, (key s).2) ∉ key <$> before →
          ∃ r s', r ∈ after ∧ s' ∈ before
                  ∧ key s' = key s ∧ tr ≤ date s'
                  ∧ copy targetId r s'))
  ∧ (NoDup (key <$> before) → NoDup (key <$> after)).

(** ** The list of requests *)

(** [{ limit, offset }] *)
Record PaginationConfig := mkPagination { limit : nat; offset : nat }.

(** [order: [['createdAt', 'DESC']]]: of two requests, the one created
    later comes first. *)
Definition newerFirst (a b : Z * NameChange.t) : Prop :=
  NameChange.createdAt b.2 ≤ NameChange.createdAt a.2.

#[global] Instance newerFirst_dec a b : Decision (newerFirst a b).
Proof. unfold newerFirst. apply _. Defined.

(** [NameChange.findAll({ where: { status }, order, limit, offset })] *)
Definition getList (status : NameChange.Status)
    (pagination : PaginationConfig) (db : DB) : list (Z * NameChange.t) :=
  let nameChanges :=
    take (limit pagination)
      (drop (offset pagination)
         (merge_sort newerFirst
            (base.filter
               (fun ir : Z * NameChange.t => NameChange.status ir.2 = status)
               (map_to_list (nameChanges db))))) in
  nameChanges.

(** ** The validation of a membership *)

Section Roles.
(** [GROUP_ROLES] of [api/constants] *)
Variable GROUP_ROLES : list string.

Definition quote : string := String (ascii_of_nat 34) EmptyString.

(** [validateRole]: the message of the [Error] it throws, if it throws. *)
Definition validateRole (this : Membership.t) : option string :=
  if bool_decide (Membership.role this ∈ GROUP_ROLES) then None
  else Some ("Invalid role " +:+ quote +:+ Membership.role this
             +:+ quote +:+ ".").
End Roles.

(** * Properties *)

(** ** Lookups *)

Lemma find_Some name db ip :
  playerService.find name db = Some ip →
  players db !! ip.1 = Some ip.2 ∧ Player.username ip.2 = name.
Proof.
  unfold playerService.find. intros Hf.
  apply fmap_Some in Hf as ([k jp] & Hf & ->).
  apply list_find_Some in Hf as (Hl & Hp & _).
  apply list_elem_of_lookup_2, elem_of_map_to_list' in Hl. by split.
Qed.

Lemma find_None name db :
  playerService.find name db = None ↔
  ∀ i p, players db !! i = Some p → Player.username p ≠ name.
Proof.
  unfold playerService.find. rewrite fmap_None, list_find_None, Forall_forall.
  split.
  - intros H i p Hip. apply (H (i, p)). by apply elem_of_map_to_list.
  - intros H [i p] Hin. apply (H i p). by apply elem_of_map_to_list in Hin.
Qed.

Lemma find_tracked name db i p :
  players db !! i = Some p → Player.username p = name →
  is_Some (playerService.find name db).
Proof.
  intros Hip Hn. destruct (playerService.find name db) eqn:E; [by eexists|].
  exfalso. eapply find_None in E; eauto.
Qed.

Lemma findOneWhere_Some o n s tbl ir :
  NameChange.findOneWhere o n s tbl = Some ir →
  tbl !! ir.1 = Some ir.2 ∧ NameChange.oldName ir.2 = o
  ∧ NameChange.newName ir.2 = n ∧ NameChange.status ir.2 = s.
Proof.
  unfold NameChange.findOneWhere. intros Hf.
  apply fmap_Some in Hf as ([k jr] & Hf & ->).
  apply list_find_Some in Hf as (Hl & Hp & _).
  apply list_elem_of_lookup_2, elem_of_map_to_list' in Hl. by split.
Qed.

Lemma findOneWhere_None o n s tbl :
  NameChange.findOneWhere o n s tbl = None ↔
  ∀ i r, tbl !! i = Some r →
    ¬ (NameChange.oldName r = o ∧ NameChange.newName r = n
       ∧ NameChange.status r = s).
Proof.
  unfold NameChange.findOneWhere.
  rewrite fmap_None, list_find_None, Forall_forall. split.
  - intros H i r Hir. apply (H (i, r)). by apply elem_of_map_to_list.
  - intros H [i r] Hin. apply (H i r). by apply elem_of_map_to_list in Hin.
Qed.

Lemma findOne_Some id tbl ir :
  NameChange.findOne id tbl = Some ir ↔ ir.1 = id ∧ tbl !! id = Some ir.2.
Proof.
  unfold NameChange.findOne. rewrite fmap_Some. split.
  - intros (r & Hr & ->). by split.
  - destruct ir as [i r]. simpl. intros [-> Hr]. by exists r.
Qed.

Lemma findOne_None id tbl :
  NameChange.findOne id tbl = None ↔ tbl !! id = None.
Proof. unfold NameChange.findOne. by rewrite fmap_None. Qed.

Lemma create_fresh pid o n now tbl :
  tbl !! (NameChange.create pid o n now tbl).1.1 = None.
Proof.
  simpl. apply not_elem_of_dom. apply is_fresh.
Qed.

(** ** The merge leaves the requests alone, and fails as a whole *)

Ltac by_faults ft :=
  unfold transferBody, await;
  repeat match goal with
         | |- context [ft ?s] => destruct (ft s) eqn:?; simpl
         end.

Section Merge.
Variable ADMIN_PASSWORD : string.
Variable standardize : string → string.
Variable gteUndefined : bool.

Abbreviation transferBody := (transferBody gteUndefined).
Abbreviation transferData := (transferData standardize gteUndefined).

Lemma transferBody_nameChanges ft now t n oldPlayer newPlayer db work :
  transferBody ft now t n oldPlayer newPlayer db = Ok work →
  nameChanges work = nameChanges db.
Proof.
  destruct newPlayer as [np|]; by_faults ft; intros [= <-]; done.
Qed.

(** A merge returns once its body and the commit are through. *)
Lemma transferData_Ok ft now oldPlayer newPlayer newName db db' :
  transferData ft now oldPlayer newPlayer newName db = (Ok tt, db') →
  ft AtBegin = None ∧ ft AtFindLatest = None ∧ ft AtCommit = None
  ∧ transferBody ft now
      (Snapshot.createdAt <$> snapshotService.findLatest oldPlayer.1 db)
      (standardize newName) oldPlayer newPlayer db = Ok db'.
Proof.
  unfold transferData, await.
  destruct (ft AtBegin); [done|]. destruct (ft AtFindLatest); [done|].
  destruct (transferBody _ _ _ _ _ _ _) eqn:E; [|done].
  destruct (ft AtCommit); [done|]. by intros [= <-].
Qed.

(** A merge returns, or throws and leaves the database as it was. *)
Lemma transferData_outcome ft now oldPlayer newPlayer newName db :
  (∃ db', transferData ft now oldPlayer newPlayer newName db = (Ok tt, db'))
  ∨ (∃ e, transferData ft now oldPlayer newPlayer newName db = (Err e, db)).
Proof.
  unfold transferData, await.
  destruct (ft AtBegin); [by eauto|]. destruct (ft AtFindLatest); [by eauto|].
  destruct (transferBody _ _ _ _ _ _ _); [|by eauto].
  destruct (ft AtCommit); by eauto.
Qed.

Lemma transferData_nameChanges ft now oldPlayer newPlayer newName db :
  nameChanges (transferData ft now oldPlayer newPlayer newName db).2
  = nameChanges db.
Proof.
  destruct (transferData_outcome ft now oldPlayer newPlayer newName db)
    as [[db' H]|[e H]]; rewrite H; [|done].
  apply transferData_Ok in H as (_ & _ & _ & H).
  by eapply transferBody_nameChanges.
Qed.



End Merge.

(** ** The checks of [submit], [deny] and [approve] *)

Lemma errors_distinct :
  idNotFound ≠ notPending ∧ idNotFound ≠ incorrectPassword
  ∧ notPending ≠ incorrectPassword.
Proof. by repeat split. Qed.

Lemma notTracked_not_similarPending oldName :
  notTracked oldName ≠ similarPending.
Proof. unfold notTracked, similarPending. intros [= H]. Qed.

Section Checks.
Variable ADMIN_PASSWORD : string.
Variable standardize : string → string.
Variable gteUndefined : bool.

Abbreviation deny := (deny ADMIN_PASSWORD).
Abbreviation approve := (approve ADMIN_PASSWORD standardize gteUndefined).

Lemma deny_missing id pw db :
  nameChanges db !! id = None → deny id pw db = (Err idNotFound, db).
Proof.
  intros H. unfold deny. by rewrite (proj2 (findOne_None _ _) H).
Qed.

Lemma approve_missing ft now id pw db :
  nameChanges db !! id = None → approve ft now id pw db = (Err idNotFound, db).
Proof.
  intros H. unfold approve. by rewrite (proj2 (findOne_None _ _) H).
Qed.

Lemma deny_not_pending id pw db r :
  nameChanges db !! id = Some r → NameChange.status r ≠ NameChange.PENDING →
  deny id pw db = (Err notPending, db).
Proof.
  intros H Hs. unfold deny, NameChange.findOne. rewrite H. simpl.
  by rewrite bool_decide_eq_true_2.
Qed.

Lemma approve_not_pending ft now id pw db r :
  nameChanges db !! id = Some r → NameChange.status r ≠ NameChange.PENDING →
  approve ft now id pw db = (Err notPending, db).
Proof.
  intros H Hs. unfold approve, NameChange.findOne. rewrite H. simpl.
  by rewrite bool_decide_eq_true_2.
Qed.

Lemma deny_bad_password id pw db r :
  nameChanges db !! id = Some r → NameChange.status r = NameChange.PENDING →
  pw ≠ ADMIN_PASSWORD →
  deny id pw db = (Err incorrectPassword, db).
Proof.
  intros H Hs Hpw. unfold deny, NameChange.findOne. rewrite H. simpl.
  rewrite bool_decide_eq_false_2 by (by intros []).
  by rewrite bool_decide_eq_true_2.
Qed.

Lemma approve_bad_password ft now id pw db r :
  nameChanges db !! id = Some r → NameChange.status r = NameChange.PENDING →
  pw ≠ ADMIN_PASSWORD →
  approve ft now id pw db = (Err incorrectPassword, db).
Proof.
  intros H Hs Hpw. unfold approve, NameChange.findOne. rewrite H.
  simpl. rewrite bool_decide_eq_false_2 by (by intros []).
  by rewrite bool_decide_eq_true_2.
Qed.

(** What a denial that passes the checks does. *)
Lemma deny_passes id db r :
  nameChanges db !! id = Some r → NameChange.status r = NameChange.PENDING →
  deny id ADMIN_PASSWORD db =
    (Ok (id, NameChange.set_status NameChange.DENIED r),
     set_nameChanges
       (alter (NameChange.set_status NameChange.DENIED) id (nameChanges db))
       db).
Proof.
  intros H Hs. unfold deny, NameChange.findOne. rewrite H. simpl.
  rewrite bool_decide_eq_false_2 by (by intros []).
  by rewrite bool_decide_eq_false_2 by (by intros []).
Qed.

(** What an approval that passes the checks does. *)
Lemma approve_passes ft now id db r :
  nameChanges db !! id = Some r → NameChange.status r = NameChange.PENDING →
  approve ft now id ADMIN_PASSWORD db =
    match playerService.find (NameChange.oldName r) db with
    | None => (Err oldPlayerGone, db)
    | Some oldPlayer =>
        match transferData standardize gteUndefined ft now oldPlayer
                (playerService.find (NameChange.newName r) db)
                (NameChange.newName r) db with
        | (Err e, db') => (Err e, db')
        | (Ok _, db') =>
            let change r :=
              NameChange.set_resolvedAt (Some now)
                (NameChange.set_status NameChange.APPROVED r) in
            (Ok (id, change r),
             set_nameChanges (alter change id (nameChanges db')) db')
        end
    end.
Proof.
  intros H Hs. unfold approve, NameChange.findOne. rewrite H. simpl.
  rewrite bool_decide_eq_false_2 by (by intros []).
  by rewrite bool_decide_eq_false_2 by (by intros []).
Qed.

(** C6, as the code has it.  [deny] and [approve] check in this order: a
    request with the id must exist, else they throw the NotFoundError
    [idNotFound]; its status must be PENDING, else they throw the
    BadRequestError [notPending]; the password must be the administrator's,
    else they throw the BadRequestError [incorrectPassword].  The three
    errors are distinct, the last two of one class, and a call that throws
    one of them leaves every table as it was. *)
Theorem deny_approve_rejections ft now id pw db :
  (nameChanges db !! id = None →
     deny id pw db = (Err idNotFound, db)
     ∧ approve ft now id pw db = (Err idNotFound, db))
  ∧ (∀ r, nameChanges db !! id = Some r →
       NameChange.status r ≠ NameChange.PENDING →
       deny id pw db = (Err notPending, db)
       ∧ approve ft now id pw db = (Err notPending, db))
  ∧ (∀ r, nameChanges db !! id = Some r →
       NameChange.status r = NameChange.PENDING → pw ≠ ADMIN_PASSWORD →
       deny id pw db = (Err incorrectPassword, db)
       ∧ approve ft now id pw db = (Err incorrectPassword, db))
  ∧ classOf idNotFound = NotFound
  ∧ classOf notPending = BadRequest
  ∧ classOf incorrectPassword = BadRequest
  ∧ idNotFound ≠ notPending ∧ idNotFound ≠ incorrectPassword
  ∧ notPending ≠ incorrectPassword.
Proof.
  split; [|split; [|split]].
  - intros H. split; [by apply deny_missing | by apply approve_missing].
  - intros r H Hs. split;
      [by eapply deny_not_pending | by eapply approve_not_pending].
  - intros r H Hs Hpw. split;
      [by eapply deny_bad_password | by eapply approve_bad_password].
  - by repeat split.
Qed.

(** C10.  With a password that is not the administrator's, [deny] and
    [approve] throw [idNotFound] when no request has the id, [notPending]
    when the request is not PENDING, and [incorrectPassword] exactly when
    the request exists and is PENDING; the three errors differ, so the
    caller learns whether the id exists and whether it is still pending. *)
Theorem credential_checked_last ft now id pw db :
  pw ≠ ADMIN_PASSWORD →
  (nameChanges db !! id = None →
     (deny id pw db).1 = Err idNotFound
     ∧ (approve ft now id pw db).1 = Err idNotFound)
  ∧ (∀ r, nameChanges db !! id = Some r →
       NameChange.status r ≠ NameChange.PENDING →
       (deny id pw db).1 = Err notPending
       ∧ (approve ft now id pw db).1 = Err notPending)
  ∧ ((deny id pw db).1 = Err incorrectPassword ↔
       ∃ r, nameChanges db !! id = Some r
            ∧ NameChange.status r = NameChange.PENDING)
  ∧ ((approve ft now id pw db).1 = Err incorrectPassword ↔
       ∃ r, nameChanges db !! id = Some r
            ∧ NameChange.status r = NameChange.PENDING)
  ∧ idNotFound ≠ notPending ∧ idNotFound ≠ incorrectPassword
  ∧ notPending ≠ incorrectPassword.
Proof.
  intros Hpw. split; [|split; [|split; [|split]]].
  - intros H. by rewrite deny_missing, approve_missing.
  - intros r H Hs.
    by rewrite (deny_not_pending _ _ _ r), (approve_not_pending _ _ _ _ _ r).
  - destruct (nameChanges db !! id) as [r|] eqn:H.
    + destruct (decide (NameChange.status r = NameChange.PENDING)) as [Hs|Hs].
      * rewrite (deny_bad_password _ _ _ r) by done. split; [eauto|done].
      * rewrite (deny_not_pending _ _ _ r) by done.
        split; [done|]. intros (r' & [= <-] & ?). done.
    + rewrite deny_missing by done. split; [done|]. by intros (r & ? & _).
  - destruct (nameChanges db !! id) as [r|] eqn:H.
    + destruct (decide (NameChange.status r = NameChange.PENDING)) as [Hs|Hs].
      * rewrite (approve_bad_password _ _ _ _ _ r) by done. split; [eauto|done].
      * rewrite (approve_not_pending _ _ _ _ _ r) by done.
        split; [done|]. intros (r' & [= <-] & ?). done.
    + rewrite approve_missing by done. split; [done|]. by intros (r & ? & _).
  - apply errors_distinct.
Qed.
End Checks.

(** ** Submission *)

(** C5, as the code has it.  [submit] throws the BadRequestError
    [notTracked] when no tracked player has the old name; otherwise it
    throws the BadRequestError [similarPending] when a PENDING request with
    the same two names exists; both leave every table as it was.  Otherwise
    it returns a new request, PENDING and unresolved, under a key no request
    had, and adds this one row to the requests: no other table changes. *)
Theorem submit_outcomes now oldName newName db :
  ((∀ i p, players db !! i = Some p → Player.username p ≠ oldName) →
     submit now oldName newName db = (Err (notTracked oldName), db))
  ∧ (∀ i p j r,
       players db !! i = Some p → Player.username p = oldName →
       nameChanges db !! j = Some r →
       NameChange.oldName r = oldName → NameChange.newName r = newName →
       NameChange.status r = NameChange.PENDING →
       submit now oldName newName db = (Err similarPending, db))
  ∧ (∀ i p,
       players db !! i = Some p → Player.username p = oldName →
       (∀ j r, nameChanges db !! j = Some r →
          ¬ (NameChange.oldName r = oldName ∧ NameChange.newName r = newName
             ∧ NameChange.status r = NameChange.PENDING)) →
       ∃ id pid p',
         players db !! pid = Some p' ∧ Player.username p' = oldName
         ∧ nameChanges db !! id = None
         ∧ let r := NameChange.mk pid oldName newName NameChange.PENDING
                      None now in
           submit now oldName newName db =
             (Ok (id, r), set_nameChanges (<[id := r]> (nameChanges db)) db)
           ∧ size (<[id := r]> (nameChanges db)) = S (size (nameChanges db)))
  ∧ classOf (notTracked oldName) = BadRequest
  ∧ classOf similarPending = BadRequest
  ∧ notTracked oldName ≠ similarPending.
Proof.
  split; [|split; [|split]].
  - intros H. unfold submit. by rewrite (proj2 (find_None _ _) H).
  - intros i p j r Hp Hn Hr Ho Hnn Hs. unfold submit.
    destruct (find_tracked oldName db i p Hp Hn) as [op ->].
    destruct (NameChange.findOneWhere _ _ _ _) eqn:E; [done|].
    exfalso. eapply findOneWhere_None in E; eauto.
  - intros i p Hp Hn Hnone. unfold submit.
    destruct (find_tracked oldName db i p Hp Hn) as [[pid p'] Hf].
    rewrite Hf. apply find_Some in Hf as [Hp' Hn'].
    rewrite (proj2 (findOneWhere_None _ _ _ _) Hnone). simpl in *.
    pose proof (create_fresh pid oldName newName now (nameChanges db)) as Hfr.
    simpl in Hfr. eexists _, pid, p'. repeat split; try done.
    by apply map_size_insert_None.
  - repeat split. apply notTracked_not_similarPending.
Qed.

(** ** The life of a request *)

Lemma evolves_trans r1 r2 r3 : evolves r1 r2 → evolves r2 r3 → evolves r1 r3.
Proof.
  intros H12 H23. destruct H12; [done| |]; inversion H23; subst;
    try (by constructor); simpl in *; done.
Qed.

Lemma evolves_settled r r' :
  evolves r r' → NameChange.status r ≠ NameChange.PENDING → r' = r.
Proof. by destruct 1. Qed.

Section Life.
Variable ADMIN_PASSWORD : string.
Variable standardize : string → string.
Variable gteUndefined : bool.

Abbreviation exec := (exec ADMIN_PASSWORD standardize gteUndefined).
Abbreviation run := (run ADMIN_PASSWORD standardize gteUndefined).

Lemma submit_evolves now o n db id r :
  nameChanges db !! id = Some r →
  nameChanges (submit now o n db).2 !! id = Some r.
Proof.
  intros H. unfold submit.
  destruct (playerService.find o db); [|done].
  destruct (NameChange.findOneWhere _ _ _ _); [done|]. simpl.
  rewrite lookup_insert_ne; [done|]. intros Heq.
  pose proof (is_fresh (dom (nameChanges db))) as Hfr.
  rewrite Heq in Hfr. apply Hfr, elem_of_dom. eauto.
Qed.

Lemma deny_evolves id' pw db id r :
  nameChanges db !! id = Some r →
  ∃ r', nameChanges (deny ADMIN_PASSWORD id' pw db).2 !! id = Some r'
        ∧ evolves r r'.
Proof.
  intros H. unfold deny, NameChange.findOne.
  destruct (nameChanges db !! id') as [q|] eqn:Hq; simpl;
    [|by eauto using evolves].
  case_bool_decide; simpl; [by eauto using evolves|].
  case_bool_decide; simpl; [by eauto using evolves|].
  unfold NameChange.save. destruct (decide (id' = id)) as [->|Hne].
  - rewrite lookup_alter_eq, H. simpl. eexists; split; [done|].
    constructor. rewrite H in Hq. injection Hq as <-.
    by destruct (decide (NameChange.status r = NameChange.PENDING)).
  - rewrite lookup_alter_ne by done. eauto using evolves.
Qed.

Lemma approve_evolves ft now id' pw db id r :
  nameChanges db !! id = Some r →
  ∃ r', nameChanges
          (approve ADMIN_PASSWORD standardize gteUndefined ft now id' pw db).2
          !! id = Some r'
        ∧ evolves r r'.
Proof.
  intros H. unfold approve, NameChange.findOne.
  destruct (nameChanges db !! id') as [q|] eqn:Hq; simpl;
    [|by eauto using evolves].
  case_bool_decide; simpl; [by eauto using evolves|].
  case_bool_decide; simpl; [by eauto using evolves|].
  destruct (playerService.find (NameChange.oldName q) db) as [oldPlayer|];
    [|by eauto using evolves].
  pose proof (transferData_nameChanges standardize gteUndefined ft now
    oldPlayer (playerService.find (NameChange.newName q) db)
    (NameChange.newName q) db) as Hnc.
  destruct (transferData _ _ _ _ _ _ _ _) as [[[]|e] db']; simpl in *.
  - unfold NameChange.save. rewrite Hnc.
    destruct (decide (id' = id)) as [->|Hne].
    + rewrite lookup_alter_eq, H. simpl. eexists; split; [done|].
      constructor. rewrite H in Hq. injection Hq as <-.
      by destruct (decide (NameChange.status r = NameChange.PENDING)).
    + rewrite lookup_alter_ne by done. eauto using evolves.
  - rewrite Hnc. eauto using evolves.
Qed.

Lemma exec_evolves c db id r :
  nameChanges db !! id = Some r →
  ∃ r', nameChanges (exec c db) !! id = Some r' ∧ evolves r r'.
Proof.
  intros H. destruct c; simpl.
  - exists r. split; [by apply submit_evolves | constructor].
  - by apply deny_evolves.
  - by apply approve_evolves.
Qed.

Lemma run_evolves cs db id r :
  nameChanges db !! id = Some r →
  ∃ r', nameChanges (run cs db) !! id = Some r' ∧ evolves r r'.
Proof.
  revert db r. induction cs as [|c cs IH]; intros db r H; simpl.
  - eauto using evolves.
  - destruct (exec_evolves c db id r H) as (r1 & H1 & E1).
    destruct (IH _ _ H1) as (r2 & H2 & E2).
    eauto using evolves_trans.
Qed.

(** C7.  Take any request of any database and any two sequences of calls
    run one after the other.  The request is still there after each; its
    status after the first is the one it had, or it was PENDING and is now
    APPROVED or DENIED; once it is not PENDING the second sequence changes
    nothing of it; and its resolution date differs from the one it had only
    if it was PENDING and is now APPROVED (a denial leaves the date as it
    was). *)
Theorem status_changes_at_most_once cs1 cs2 db id r :
  nameChanges db !! id = Some r →
  ∃ r1 r2,
    nameChanges (run cs1 db) !! id = Some r1
    ∧ nameChanges (run cs2 (run cs1 db)) !! id = Some r2
    ∧ (NameChange.status r1 = NameChange.status r
       ∨ NameChange.status r = NameChange.PENDING
         ∧ (NameChange.status r1 = NameChange.APPROVED
            ∨ NameChange.status r1 = NameChange.DENIED))
    ∧ (NameChange.status r ≠ NameChange.PENDING → r1 = r)
    ∧ (NameChange.status r1 ≠ NameChange.PENDING → r2 = r1)
    ∧ (NameChange.resolvedAt r1 ≠ NameChange.resolvedAt r →
       NameChange.status r = NameChange.PENDING
       ∧ NameChange.status r1 = NameChange.APPROVED)
    ∧ (NameChange.status r1 = NameChange.DENIED →
       NameChange.resolvedAt r1 = NameChange.resolvedAt r).
Proof.
  intros H.
  destruct (run_evolves cs1 db id r H) as (r1 & H1 & E1).
  destruct (run_evolves cs2 _ id r1 H1) as (r2 & H2 & E2).
  exists r1, r2. repeat split; try done.
  - destruct E1; simpl; eauto.
  - by apply evolves_settled.
  - by apply evolves_settled.
  - destruct E1; simpl in *; done.
  - destruct E1; simpl in *; done.
  - destruct E1; simpl in *; try done.
Qed.
End Life.

(** ** Approval *)

Section Approval.
Variable ADMIN_PASSWORD : string.
Variable standardize : string → string.
Variable gteUndefined : bool.

Abbreviation transferBody := (transferBody gteUndefined).
Abbreviation transferData := (transferData standardize gteUndefined).
Abbreviation approve := (approve ADMIN_PASSWORD standardize gteUndefined).

(** The players a merge that commits leaves: the new player, if there was
    one, is deleted, and then the row of the old player's key is renamed. *)
Lemma transferBody_players ft now t n oldPlayer newPlayer db work :
  transferBody ft now t n oldPlayer newPlayer db = Ok work →
  players work =
    alter (Player.rename n) oldPlayer.1
      (match newPlayer with
       | Some np => delete np.1 (players db)
       | None => players db
       end).
Proof.
  destruct newPlayer as [np|]; by_faults ft; intros [= <-]; done.
Qed.

Lemma transferData_players ft now oldPlayer newPlayer newName db db' :
  transferData ft now oldPlayer newPlayer newName db = (Ok tt, db') →
  players db' =
    alter (Player.rename (standardize newName)) oldPlayer.1
      (match newPlayer with
       | Some np => delete np.1 (players db)
       | None => players db
       end).
Proof.
  intros (_ & _ & _ & H)%transferData_Ok. by eapply transferBody_players.
Qed.


(** What an approval that returns has done. *)
Lemma approve_Ok ft now id pw db nc db' :
  approve ft now id pw db = (Ok nc, db') →
  ∃ r oldPlayer db1,
    nameChanges db !! id = Some r
    ∧ NameChange.status r = NameChange.PENDING
    ∧ pw = ADMIN_PASSWORD
    ∧ playerService.find (NameChange.oldName r) db = Some oldPlayer
    ∧ transferData ft now oldPlayer
        (playerService.find (NameChange.newName r) db)
        (NameChange.newName r) db = (Ok tt, db1)
    ∧ nc = (id, NameChange.set_resolvedAt (Some now)
                  (NameChange.set_status NameChange.APPROVED r))
    ∧ db' = set_nameChanges
              (alter (fun r => NameChange.set_resolvedAt (Some now)
                         (NameChange.set_status NameChange.APPROVED r))
                 id (nameChanges db1)) db1.
Proof.
  unfold approve, NameChange.findOne.
  destruct (nameChanges db !! id) as [r|] eqn:Hr; simpl; [|done].
  case_bool_decide as Hs; [done|]. case_bool_decide as Hpw; [done|].
  destruct (playerService.find (NameChange.oldName r) db) as [oldPlayer|]
    eqn:Ho; [|done].
  destruct (transferData _ _ _ _ _ _) as [[[]|e] db1] eqn:Ht;
    [|done].
  intros [= <- <-]. exists r, oldPlayer, db1. by repeat split.
Qed.

(** C1, as the code has it.  When [approve] returns, the request was
    PENDING and named a tracked old player.  The player that had the new
    name, if there was one, is gone; and if that player was not the old
    player himself, the old player's row carries the standardized new name
    as [username] and as [displayName]. *)
Theorem approve_renames_donor ft now id pw db nc db' :
  approve ft now id pw db = (Ok nc, db') →
  ∃ r oid op,
    nameChanges db !! id = Some r
    ∧ playerService.find (NameChange.oldName r) db = Some (oid, op)
    ∧ (∀ nid np,
         playerService.find (NameChange.newName r) db = Some (nid, np) →
         players db' !! nid = None)
    ∧ ((∀ nid np,
          playerService.find (NameChange.newName r) db = Some (nid, np) →
          nid ≠ oid) →
       players db' !! oid =
         Some (Player.mk (standardize (NameChange.newName r))
                 (standardize (NameChange.newName r)))).
Proof.
  intros H. apply approve_Ok in H
    as (r & [oid op] & db1 & Hr & Hs & -> & Ho & Ht & -> & ->).
  exists r, oid, op. split; [done|]. split; [done|].
  apply transferData_players in Ht. simpl in *. rewrite Ht.
  apply find_Some in Ho as [Hop _]. simpl in Hop. split.
  - intros nid np ->. simpl. destruct (decide (oid = nid)) as [->|Hne].
    + by rewrite lookup_alter_eq, lookup_delete_eq.
    + by rewrite lookup_alter_ne, lookup_delete_eq.
  - intros Hdiff. rewrite lookup_alter_eq.
    destruct (playerService.find (NameChange.newName r) db) as [[nid np]|]
      eqn:Hn.
    + rewrite lookup_delete_ne by (by eapply Hdiff). by rewrite Hop.
    + by rewrite Hop.
Qed.

End Approval.

(** ** The merge of the records *)

Lemma finalValue_cons i u us v0 :
  finalValue i (u :: us) v0
  = finalValue i us (if decide ((u.1).1 = i) then u.2 else v0).
Proof. done. Qed.

Lemma finalValue_untouched i us v0 :
  (∀ u, u ∈ us → (u.1).1 ≠ i) → finalValue i us v0 = v0.
Proof.
  revert v0. induction us as [|u us IH]; intros v0 H; [done|].
  rewrite finalValue_cons, decide_False by (apply H; left).
  apply IH. intros u' Hu'. apply H. by right.
Qed.

Lemma finalValue_agreed i us v0 v :
  (∀ u, u ∈ us → (u.1).1 = i → u.2 = v) →
  (∃ u, u ∈ us ∧ (u.1).1 = i) →
  finalValue i us v0 = v.
Proof.
  revert v0. induction us as [|u us IH]; intros v0 Hall [w [Hw Hi]].
  - by apply elem_of_nil in Hw.
  - rewrite finalValue_cons.
    assert (Hrest : ∀ u', u' ∈ us → (u'.1).1 = i → u'.2 = v).
    { intros u' Hu'. apply Hall. by right. }
    destruct (decide (Exists (fun u' : Z * Record_.t * Z => (u'.1).1 = i) us))
      as [Hex|Hno]; rewrite Exists_exists in *.
    + by apply IH.
    + rewrite finalValue_untouched.
      * apply elem_of_cons in Hw as [<-|Hw]; [|exfalso; eauto].
        rewrite decide_True by done. apply Hall; [left|done].
      * intros u' Hu' Heq. apply Hno. eauto.
Qed.

Lemma finalValue_lower i us v0 lo :
  (∀ u, u ∈ us → (u.1).1 = i → lo ≤ u.2) → lo ≤ v0 →
  lo ≤ finalValue i us v0.
Proof.
  revert v0. induction us as [|u us IH]; intros v0 Hall Hv; [done|].
  rewrite finalValue_cons. apply IH.
  - intros u' Hu'. apply Hall. by right.
  - case_decide; [|done]. apply Hall; [left|done].
Qed.

Lemma raised_untouched now i us r :
  (∀ u, u ∈ us → (u.1).1 ≠ i) → raised now i us r = r.
Proof.
  intros H. unfold raised. rewrite bool_decide_eq_false_2; [done|].
  rewrite Exists_exists. intros (u & Hu & Hi). by apply (H u).
Qed.

Lemma raised_touched now i us r :
  (∃ u, u ∈ us ∧ (u.1).1 = i) →
  raised now i us r
  = Record_.set_updatedAt now
      (Record_.set_value (finalValue i us (Record_.value r)) r).
Proof.
  intros H. unfold raised. rewrite bool_decide_eq_true_2; [done|].
  by rewrite Exists_exists.
Qed.

Lemma raised_key now i us r : recordKey (raised now i us r) = recordKey r.
Proof. unfold raised. by case_bool_decide. Qed.

Lemma raised_value now i us r :
  Record_.value (raised now i us r) = finalValue i us (Record_.value r).
Proof.
  unfold raised. case_bool_decide as H; [done|].
  rewrite finalValue_untouched; [done|].
  intros u Hu Hi. apply H, Exists_exists. eauto.
Qed.

Lemma raised_cons now i u us r :
  raised now i (u :: us) r
  = raised now i us
      (if decide ((u.1).1 = i)
       then Record_.set_updatedAt now (Record_.set_value u.2 r) else r).
Proof.
  destruct (decide ((u.1).1 = i)) as [Hi|Hne].
  - rewrite (raised_touched now i (u :: us)) by (exists u; split; [left|done]).
    rewrite finalValue_cons, decide_True by done.
    destruct (decide (Exists (fun u' : Z * Record_.t * Z => (u'.1).1 = i) us))
      as [Hex|Hno]; rewrite Exists_exists in *.
    + by rewrite raised_touched.
    + rewrite raised_untouched, finalValue_untouched; [done| |];
        intros u' Hu' Hi'; apply Hno; eauto.
  - unfold raised. rewrite finalValue_cons, decide_False by done.
    destruct (decide (Exists (fun u' : Z * Record_.t * Z => (u'.1).1 = i) us))
      as [Hex|Hno].
    + rewrite !bool_decide_eq_true_2; [done|done|by right].
    + rewrite !bool_decide_eq_false_2; [done|done|].
      by intros [?|?]%Exists_cons.
Qed.

Lemma updates_lookup now us tbl i :
  foldl (fun tbl u => Record_.update (u.1).1 u.2 now tbl) tbl us !! i
  = raised now i us <$> tbl !! i.
Proof.
  revert tbl. induction us as [|u us IH]; intros tbl; simpl.
  - by destruct (tbl !! i).
  - rewrite IH. unfold Record_.update.
    destruct (decide ((u.1).1 = i)) as [Hi|Hne].
    + rewrite Hi, lookup_alter_eq.
      destruct (tbl !! i) as [r|]; simpl; [|done].
      by rewrite raised_cons, decide_True.
    + rewrite lookup_alter_ne by done.
      destruct (tbl !! i) as [r|]; simpl; [|done].
      by rewrite raised_cons, decide_False.
Qed.

Lemma elem_of_findAll where_ tbl (ir : Z * Record_.t) :
  ir ∈ Record_.findAll where_ tbl ↔
  tbl !! ir.1 = Some ir.2 ∧ where_ ir.2 = true.
Proof.
  unfold Record_.findAll. rewrite list_elem_of_filter, elem_of_map_to_list'.
  tauto.
Qed.

Lemma oldEquivalent_Some olds n o :
  oldEquivalent olds n = Some o →
  o ∈ olds ∧ Record_.metric o.2 = Record_.metric n
  ∧ Record_.period o.2 = Record_.period n.
Proof.
  unfold oldEquivalent. intros H.
  apply fmap_Some in H as ([k o'] & H & ->).
  apply list_find_Some in H as (Hl & Hp & _).
  split; [by eapply list_elem_of_lookup_2 | done].
Qed.

Lemma oldEquivalent_is_Some olds n o :
  o ∈ olds → Record_.metric o.2 = Record_.metric n →
  Record_.period o.2 = Record_.period n →
  is_Some (oldEquivalent olds n).
Proof.
  intros Ho Hm Hp. unfold oldEquivalent.
  destruct (list_find _ olds) as [[k o']|] eqn:E; [by eexists|].
  exfalso. apply list_find_None in E.
  rewrite Forall_forall in E. by apply (E o Ho).
Qed.

Lemma elem_of_outdatedBy olds n u :
  u ∈ outdatedBy olds n ↔
  oldEquivalent olds n.2 = Some u.1
  ∧ Record_.value (u.1).2 < Record_.value n.2
  ∧ u.2 = Record_.value n.2.
Proof.
  unfold outdatedBy. destruct (oldEquivalent olds n.2) as [o|] eqn:E.
  - case_bool_decide as Hlt.
    + rewrite list_elem_of_singleton. split.
      * by intros ->.
      * intros ([= Ho] & _ & Hv). destruct u as [o' v]. simpl in *. congruence.
    + split; [by intros ?%elem_of_nil|].
      intros ([= <-] & ? & _). done.
  - split; [by intros ?%elem_of_nil | by intros [? _]].
Qed.

Section Records.
Variable standardize : string → string.
Variable gteUndefined : bool.

Abbreviation selects := (selects gteUndefined).
Abbreviation outdated := (outdated gteUndefined).
Abbreviation transferRecords := (transferRecords gteUndefined).
Abbreviation transferData := (transferData standardize gteUndefined).

Lemma selects_true filter pid d :
  selects filter pid d = true ↔
  pid = where_playerId filter ∧ gte gteUndefined (where_gte filter) d = true.
Proof.
  unfold selects. by rewrite andb_true_iff, bool_decide_eq_true.
Qed.

Lemma transferRecords_lookup now filter targetId db i :
  records (transferRecords now filter targetId db db) !! i
  = raised now i (outdated filter targetId db) <$> records db !! i.
Proof. unfold transferRecords. simpl. apply updates_lookup. Qed.

(** Every update raises an old record of the target to the value of a
    selected record of the same metric and period. *)
Lemma elem_of_outdated filter targetId db u :
  u ∈ outdated filter targetId db →
  records db !! (u.1).1 = Some (u.1).2
  ∧ Record_.playerId (u.1).2 = targetId
  ∧ Record_.value (u.1).2 < u.2
  ∧ ∃ j n,
      records db !! j = Some n
      ∧ selects filter (Record_.playerId n) (Record_.updatedAt n) = true
      ∧ Record_.metric (u.1).2 = Record_.metric n
      ∧ Record_.period (u.1).2 = Record_.period n
      ∧ u.2 = Record_.value n.
Proof.
  unfold outdated. rewrite list_elem_of_bind. intros ([j n] & Hu & Hn).
  apply elem_of_outdatedBy in Hu as (Ho & Hlt & Hv).
  apply oldEquivalent_Some in Ho as (Ho & Hm & Hp).
  apply elem_of_findAll in Ho as [Ho Ht].
  apply elem_of_findAll in Hn as [Hn Hsel]. simpl in *.
  apply bool_decide_eq_true in Ht.
  repeat split; try done; [lia|]. by exists j, n.
Qed.

Lemma outdated_reaches filter targetId db i d j n :
  uniqueRecords (records db) →
  records db !! i = Some d → Record_.playerId d = targetId →
  records db !! j = Some n →
  selects filter (Record_.playerId n) (Record_.updatedAt n) = true →
  Record_.metric d = Record_.metric n →
  Record_.period d = Record_.period n →
  Record_.value d < Record_.value n →
  ∃ u, u ∈ outdated filter targetId db ∧ (u.1).1 = i.
Proof.
  intros Huniq Hd Hpid Hn Hsel Hm Hp Hlt.
  set (olds := Record_.findAll
                 (fun r => bool_decide (Record_.playerId r = targetId))
                 (records db)).
  assert (Hin : (i, d) ∈ olds).
  { apply elem_of_findAll. split; [done|]. by apply bool_decide_eq_true. }
  destruct (oldEquivalent_is_Some olds n (i, d) Hin Hm Hp) as [o Ho].
  pose proof (oldEquivalent_Some _ _ _ Ho) as (Ho' & Hm' & Hp').
  apply elem_of_findAll in Ho' as [Hol Hot].
  apply bool_decide_eq_true in Hot.
  assert (o.1 = i) as Hoi.
  { eapply Huniq; eauto; congruence. }
  assert (o = (i, d)) as ->.
  { destruct o as [oi od]. simpl in *. subst oi. congruence. }
  exists ((i, d), Record_.value n). split; [|done].
  unfold outdated. apply list_elem_of_bind. exists (j, n). split.
  - apply elem_of_outdatedBy. by repeat split.
  - by apply elem_of_findAll.
Qed.

(** The record of the target for which a selected record of its metric and
    period exists: it ends with the greater value, and with the date of the
    update if it was raised. *)
Lemma transferRecords_max now filter targetId db i d j n :
  uniqueRecords (records db) →
  records db !! i = Some d → Record_.playerId d = targetId →
  records db !! j = Some n →
  selects filter (Record_.playerId n) (Record_.updatedAt n) = true →
  Record_.metric d = Record_.metric n →
  Record_.period d = Record_.period n →
  ∃ d',
    records (transferRecords now filter targetId db db) !! i = Some d'
    ∧ Record_.value d' = Z.max (Record_.value d) (Record_.value n)
    ∧ recordKey d' = recordKey d
    ∧ Record_.updatedAt d'
      = if bool_decide (Record_.value d < Record_.value n)
        then now else Record_.updatedAt d.
Proof.
  intros Huniq Hd Hpid Hn Hsel Hm Hp.
  rewrite transferRecords_lookup, Hd. simpl. eexists. split; [done|].
  assert (Hall : ∀ u, u ∈ outdated filter targetId db → (u.1).1 = i →
                      u.2 = Record_.value n ∧ Record_.value d < u.2).
  { intros u Hu Hi.
    apply elem_of_outdated in Hu
      as (Ho & Hopid & Hlt & j' & n' & Hn' & Hsel' & Hm' & Hp' & Hv).
    rewrite Hi, Hd in Ho. injection Ho as Ho. rewrite <- Ho in *.
    assert (j' = j) as ->.
    { pose proof (proj1 (selects_true _ _ _) Hsel) as [Hq _].
      pose proof (proj1 (selects_true _ _ _) Hsel') as [Hq' _].
      eapply Huniq; eauto; congruence. }
    assert (n' = n) as -> by congruence. by split; [|lia]. }
  split; [|split; [apply raised_key|]].
  - rewrite raised_value.
    destruct (decide (Record_.value d < Record_.value n)) as [Hlt|Hge].
    + rewrite Z.max_r by lia. apply finalValue_agreed.
      * intros u Hu Hi. by apply Hall.
      * by eapply outdated_reaches.
    + rewrite Z.max_l by lia. apply finalValue_untouched.
      intros u Hu Hi. destruct (Hall u Hu Hi) as [Hv Hlt]. lia.
  - case_bool_decide as Hlt.
    + rewrite raised_touched; [done|]. by eapply outdated_reaches.
    + rewrite raised_untouched; [done|].
      intros u Hu Hi. destruct (Hall u Hu Hi) as [Hv Hlt']. lia.
Qed.

Lemma transferRecords_sameRecordKeys now filter targetId db :
  sameRecordKeys (records db)
    (records (transferRecords now filter targetId db db)).
Proof.
  assert (Hk : ∀ i,
    recordKey <$> records (transferRecords now filter targetId db db) !! i
    = recordKey <$> records db !! i).
  { intros i. rewrite transferRecords_lookup.
    destruct (records db !! i); simpl; [|done]. by rewrite raised_key. }
  split; [|split; [done|]].
  - apply set_eq. intros i. rewrite !elem_of_dom, <- !(fmap_is_Some recordKey).
    by rewrite Hk.
  - intros pid m p. unfold hasRecord.
    split; intros (i & r & Hr & Hkey); pose proof (Hk i) as Hki;
      rewrite Hr in Hki.
    + destruct (records db !! i) as [r0|] eqn:E0; [|done].
      change (Some (recordKey r) = Some (recordKey r0)) in Hki.
      exists i, r0. split; [done|congruence].
    + destruct (records (transferRecords now filter targetId db db) !! i)
        as [r0|] eqn:E0; [|done].
      change (Some (recordKey r0) = Some (recordKey r)) in Hki.
      exists i, r0. split; [done|congruence].
Qed.

(** The step keeps the records unique. *)
Lemma transferRecords_uniqueRecords now filter targetId db :
  uniqueRecords (records db) →
  uniqueRecords (records (transferRecords now filter targetId db db)).
Proof.
  intros Huniq i j ri rj Hi Hj Hpid Hm Hp.
  destruct (transferRecords_sameRecordKeys now filter targetId db)
    as (_ & Hk & _).
  pose proof (Hk i) as Hki. pose proof (Hk j) as Hkj.
  rewrite Hi in Hki. rewrite Hj in Hkj.
  destruct (records db !! i) as [ri0|] eqn:Ei; [|done].
  destruct (records db !! j) as [rj0|] eqn:Ej; [|done].
  change (Some (recordKey ri) = Some (recordKey ri0)) in Hki.
  change (Some (recordKey rj) = Some (recordKey rj0)) in Hkj.
  unfold recordKey in *. eapply (Huniq i j ri0 rj0); congruence.
Qed.

Lemma transferBody_records ft now t n oldPlayer np db work :
  transferBody gteUndefined ft now t n oldPlayer (Some np) db = Ok work →
  records work
  = records (transferRecords now {| where_playerId := np.1; where_gte := t |}
               oldPlayer.1 db db).
Proof. by_faults ft; intros [= <-]; done. Qed.

Lemma transferData_records ft now oldPlayer np newName db db' :
  transferData ft now oldPlayer (Some np) newName db = (Ok tt, db') →
  records db'
  = records
      (transferRecords now
         {| where_playerId := np.1;
            where_gte :=
              Snapshot.createdAt <$> snapshotService.findLatest oldPlayer.1 db |}
         oldPlayer.1 db db).
Proof.
  intros (_ & _ & _ & H)%transferData_Ok. by eapply transferBody_records.
Qed.

(** C2.  Let a merge with a new player commit, the old player having a
    latest snapshot, of date [t], and the records being unique for a player,
    a metric and a period.  Then every record of the old player for which
    the new player has a record of the same metric and period updated at
    [t] or later ends with the greater of the two values; its player,
    metric and period are those it had, and its date of update is the time
    of the merge if its value was raised and the date it had if not.  And,
    with or without these conditions, every record is still there, for the
    player, metric and period it had, and with no smaller a value. *)
Theorem merge_raises_records_to_max ft now oldPlayer np newName db db' :
  transferData ft now oldPlayer (Some np) newName db = (Ok tt, db') →
  (∀ t i d j n,
     uniqueRecords (records db) →
     Snapshot.createdAt <$> snapshotService.findLatest oldPlayer.1 db = Some t →
     records db !! i = Some d → Record_.playerId d = oldPlayer.1 →
     records db !! j = Some n → Record_.playerId n = np.1 →
     t ≤ Record_.updatedAt n →
     Record_.metric d = Record_.metric n →
     Record_.period d = Record_.period n →
     ∃ d',
       records db' !! i = Some d'
       ∧ Record_.value d' = Z.max (Record_.value d) (Record_.value n)
       ∧ recordKey d' = recordKey d
       ∧ Record_.updatedAt d'
         = if bool_decide (Record_.value d < Record_.value n)
           then now else Record_.updatedAt d)
  ∧ (∀ i d,
       records db !! i = Some d →
       ∃ d', records db' !! i = Some d'
             ∧ recordKey d' = recordKey d
             ∧ Record_.value d ≤ Record_.value d').
Proof.
  intros Hok. apply transferData_records in Hok. rewrite Hok. split.
  - intros t i d j n Huniq Ht Hd Hpid Hn Hnp Hle Hm Hp.
    apply (transferRecords_max _ _ _ _ i d j n); try done.
    apply selects_true. simpl. rewrite Ht. simpl.
    split; [done | by apply bool_decide_eq_true].
  - intros i d Hd. rewrite transferRecords_lookup, Hd. simpl.
    eexists. split; [done|]. split; [apply raised_key|].
    rewrite raised_value. apply finalValue_lower; [|done].
    intros u Hu Hi. apply elem_of_outdated in Hu as (Ho & _ & Hlt & _).
    rewrite Hi, Hd in Ho. injection Ho as Ho. rewrite <- Ho in Hlt. lia.
Qed.

(** C3.  The step that merges the records, whatever its filter, leaves a
    table of the same keys, whose rows have the player, metric and period
    they had: a player has a record for a metric and a period after it
    exactly when he had one before, the old player in particular, also
    for the pairs for which only the new player has a record.  The step
    touches no other table, and the records of a merge that commits are
    those the step leaves. *)
Theorem merge_creates_no_record now filter targetId db :
  sameRecordKeys (records db)
    (records (transferRecords now filter targetId db db))
  ∧ (∀ m p, hasRecord (records (transferRecords now filter targetId db db))
              targetId m p
            ↔ hasRecord (records db) targetId m p)
  ∧ set_records (records db) (transferRecords now filter targetId db db) = db
  ∧ (∀ ft oldPlayer np newName db',
       transferData ft now oldPlayer (Some np) newName db = (Ok tt, db') →
       sameRecordKeys (records db) (records db')).
Proof.
  split; [apply transferRecords_sameRecordKeys|].
  split; [apply transferRecords_sameRecordKeys|].
  split; [by destruct db|].
  intros ft oldPlayer np newName db' Hok.
  apply transferData_records in Hok. rewrite Hok.
  apply transferRecords_sameRecordKeys.
Qed.
End Records.

(** ** Insertion that ignores duplicates *)

Section BulkCreateFacts.
Context {R A K : Type} `{EqDecision K}.
Variable key : R → K.
Variable akey : A → K.
Variable store : list R → A → R.
Hypothesis key_store : ∀ tbl a, key (store tbl a) = akey a.

Abbreviation insertIgnore := (insertIgnore key akey store).
Abbreviation bulkCreate := (bulkCreate key akey store).

Lemma insertIgnore_cases (tbl : list R) a :
  (akey a ∈ key <$> tbl ∧ insertIgnore tbl a = tbl)
  ∨ ((akey a ∉ key <$> tbl) ∧ insertIgnore tbl a = (tbl ++ [store tbl a])%list).
Proof.
  unfold insertIgnore, conflicts. case_bool_decide; [by left | by right].
Qed.

Lemma bulkCreate_cons a rows (tbl : list R) :
  bulkCreate (a :: rows) tbl = bulkCreate rows (insertIgnore tbl a).
Proof. done. Qed.

(** The stored rows stay, in place; what comes after them was built from
    the given rows. *)
Lemma bulkCreate_appends rows (tbl : list R) :
  ∃ extra,
    bulkCreate rows tbl = (tbl ++ extra)%list
    ∧ ∀ r, r ∈ extra → ∃ a tbl', a ∈ rows ∧ r = store tbl' a.
Proof.
  revert tbl. induction rows as [|a rows IH]; intros tbl.
  - exists []. split; [by rewrite app_nil_r | by intros r ?%elem_of_nil].
  - rewrite bulkCreate_cons.
    destruct (IH (insertIgnore tbl a)) as (extra & -> & Hex).
    destruct (insertIgnore_cases tbl a) as [[_ ->]|[_ ->]].
    + exists extra. split; [done|]. intros r Hr.
      destruct (Hex r Hr) as (a' & tbl' & Ha' & ->).
      exists a', tbl'. split; [by right | done].
    + exists (store tbl a :: extra). split; [by rewrite <- app_assoc|].
      intros r [->|Hr]%elem_of_cons.
      * exists a, tbl. split; [left | done].
      * destruct (Hex r Hr) as (a' & tbl' & Ha' & ->).
        exists a', tbl'. split; [by right | done].
Qed.

Lemma bulkCreate_keeps rows (tbl : list R) k :
  k ∈ key <$> tbl → k ∈ key <$> bulkCreate rows tbl.
Proof.
  destruct (bulkCreate_appends rows tbl) as (extra & -> & _).
  rewrite fmap_app, elem_of_app. by left.
Qed.

(** The key of every given row is a key of the table afterwards. *)
Lemma bulkCreate_covers rows (tbl : list R) a :
  a ∈ rows → akey a ∈ key <$> bulkCreate rows tbl.
Proof.
  revert tbl. induction rows as [|b rows IH]; intros tbl Ha.
  - by apply elem_of_nil in Ha.
  - rewrite bulkCreate_cons. apply elem_of_cons in Ha as [->|Ha]; [|by apply IH].
    apply bulkCreate_keeps.
    destruct (insertIgnore_cases tbl b) as [[Hin ->]|[_ ->]]; [done|].
    rewrite fmap_app, elem_of_app. right. simpl. rewrite key_store. left.
Qed.

(** A given row whose key the table has not: a given row with that key is
    stored. *)
Lemma bulkCreate_inserts rows (tbl : list R) a :
  a ∈ rows → akey a ∉ key <$> tbl →
  ∃ a' tbl', a' ∈ rows ∧ akey a' = akey a
             ∧ store tbl' a' ∈ bulkCreate rows tbl.
Proof.
  revert tbl. induction rows as [|b rows IH]; intros tbl Ha Hnew.
  - by apply elem_of_nil in Ha.
  - rewrite bulkCreate_cons.
    destruct (insertIgnore_cases tbl b) as [[Hin ->]|[Hnot ->]].
    + apply elem_of_cons in Ha as [->|Ha]; [done|].
      destruct (IH tbl Ha Hnew) as (a' & tbl' & Ha' & Hk & Hst).
      exists a', tbl'. split; [by right | done].
    + destruct (decide (akey b = akey a)) as [Hk|Hk].
      * exists b, tbl. split; [left|]. split; [done|].
        destruct (bulkCreate_appends rows (tbl ++ [store tbl b]))
          as (extra & -> & _).
        rewrite !elem_of_app. left. right. left.
      * apply elem_of_cons in Ha as [->|Ha]; [done|].
        destruct (IH (tbl ++ [store tbl b])%list Ha) as (a' & tbl' & Ha' & Hk' & Hst).
        { rewrite fmap_app, elem_of_app. intros [?|Hb]; [done|].
          simpl in Hb. rewrite key_store in Hb.
          apply elem_of_cons in Hb as [?|[]%elem_of_nil]. by apply Hk. }
        exists a', tbl'. split; [by right | done].
Qed.

(** Rows whose keys the table has change nothing. *)
Lemma bulkCreate_noop rows (tbl : list R) :
  (∀ a, a ∈ rows → akey a ∈ key <$> tbl) → bulkCreate rows tbl = tbl.
Proof.
  induction rows as [|a rows IH]; intros Hall; [done|].
  rewrite bulkCreate_cons.
  destruct (insertIgnore_cases tbl a) as [[_ ->]|[Hnot _]].
  - apply IH. intros a' Ha'. apply Hall. by right.
  - exfalso. apply Hnot, Hall. left.
Qed.

(** No key comes to be used twice. *)
Lemma bulkCreate_NoDup rows (tbl : list R) :
  NoDup (key <$> tbl) → NoDup (key <$> bulkCreate rows tbl).
Proof.
  revert tbl. induction rows as [|a rows IH]; intros tbl Hnd; [done|].
  rewrite bulkCreate_cons. apply IH.
  destruct (insertIgnore_cases tbl a) as [[_ ->]|[Hnot ->]]; [done|].
  rewrite fmap_app. apply NoDup_app. split; [done|]. split.
  - intros k Hk [->|[]%elem_of_nil]%elem_of_cons. by rewrite key_store in Hk.
  - simpl. apply NoDup_singleton.
Qed.
End BulkCreateFacts.

(** ** Transfers keyed by the owner and one more column *)

Section TransferFacts.
Context {R A K : Type} `{EqDecision K}.
Variable owner : R → Z.
Variable part : R → K.
Variable moved : Z → R → A.
Variable akey : A → Z * K.
Variable store : list R → A → R.
Variable sel : R → bool.
Hypothesis akey_moved : ∀ t r, akey (moved t r) = (t, part r).
Hypothesis key_store :
  ∀ tbl a, (owner (store tbl a), part (store tbl a)) = akey a.

Abbreviation key := (fun r : R => (owner r, part r)).
Abbreviation transfer := (fun (t : Z) (rd wr : list R) =>
  bulkCreate key akey store
    (moved t <$> base.filter (fun r => sel r = true) rd) wr).

(** A second run of a transfer finds the key of every row it would insert. *)
Lemma transfer_twice t (tbl : list R) :
  transfer t (transfer t tbl tbl) (transfer t tbl tbl) = transfer t tbl tbl.
Proof.
  apply bulkCreate_noop. intros a Ha.
  apply list_elem_of_fmap in Ha as (r & -> & Hr).
  apply list_elem_of_filter in Hr as [Hsel Hr].
  destruct (bulkCreate_appends key akey store
              (moved t <$> base.filter (fun r => sel r = true) tbl) tbl)
    as (extra & Heq & Hex).
  rewrite Heq in Hr. apply elem_of_app in Hr as [Hr|Hr].
  - apply (bulkCreate_covers key akey store key_store).
    apply list_elem_of_fmap. exists r. split; [done|].
    by apply list_elem_of_filter.
  - destruct (Hex r Hr) as (a & tbl' & Ha & ->).
    apply list_elem_of_fmap in Ha as (r0 & -> & _).
    rewrite akey_moved.
    assert (Hk : key (store tbl' (moved t r0)) = (t, part r0)).
    { by rewrite key_store, akey_moved. }
    injection Hk as Ho Hp. rewrite Hp, <- Hp, <- Ho at 1.
    rewrite Heq, fmap_app, elem_of_app. right.
    apply list_elem_of_fmap. by exists (store tbl' (moved t r0)).
Qed.

(** What a single run of a transfer does. *)
Lemma transfer_transferred (date : R → Z) (copy : Z → R → R → Prop)
    rid tr t (tbl : list R) :
  (∀ r, sel r = true ↔ owner r = rid ∧ tr ≤ date r) →
  (∀ tbl' s, copy t (store tbl' (moved t s)) s) →
  transferred key date copy rid tr t tbl (transfer t tbl tbl).
Proof.
  intros Hsel Hcopy.
  destruct (bulkCreate_appends key akey store
              (moved t <$> base.filter (fun r => sel r = true) tbl) tbl)
    as (extra & Heq & Hex).
  split; [|split].
  - exists extra. split; [done|]. intros r Hr.
    destruct (Hex r Hr) as (a & tbl' & Ha & ->).
    apply list_elem_of_fmap in Ha as (s & -> & Hs).
    apply list_elem_of_filter in Hs as [Hs Hin].
    apply Hsel in Hs as [Ho Hd]. split.
    + simpl. pose proof (key_store tbl' (moved t s)) as Hk.
      rewrite akey_moved in Hk. by injection Hk.
    + by exists s.
  - intros s Hin Ho Hd.
    assert (Hrow : moved t s ∈ moved t <$> base.filter (fun r => sel r = true) tbl).
    { apply list_elem_of_fmap. exists s. split; [done|].
      apply list_elem_of_filter. split; [|done]. by apply Hsel. }
    split.
    + simpl. rewrite <- akey_moved.
      by apply (bulkCreate_covers key akey store key_store).
    + simpl. rewrite <- akey_moved. intros Hnew.
      destruct (bulkCreate_inserts key akey store key_store _ _ _ Hrow Hnew)
        as (a' & tbl' & Ha' & Hk & Hst).
      apply list_elem_of_fmap in Ha' as (s' & -> & Hs').
      apply list_elem_of_filter in Hs' as [Hs' Hin'].
      apply Hsel in Hs' as [Ho' Hd'].
      exists (store tbl' (moved t s')), s'.
      split; [done|]. split; [done|]. split; [|by split].
      rewrite !akey_moved in Hk. injection Hk as Hk.
      simpl in Ho. by rewrite Ho', Ho, Hk.
  - apply (bulkCreate_NoDup key akey store key_store).
Qed.
End TransferFacts.

Section Transfers.
Variable gteUndefined : bool.

Abbreviation selects := (selects gteUndefined).
Abbreviation transferSnapshots := (transferSnapshots gteUndefined).
Abbreviation transferParticipations := (transferParticipations gteUndefined).
Abbreviation transferMemberships := (transferMemberships gteUndefined).

Lemma selects_since rid tr pid d :
  selects {| where_playerId := rid; where_gte := Some tr |} pid d = true
  ↔ pid = rid ∧ tr ≤ d.
Proof.
  unfold selects. simpl. by rewrite andb_true_iff, !bool_decide_eq_true.
Qed.

Lemma transferSnapshots_twice filter targetId db :
  let once := transferSnapshots filter targetId db db in
  transferSnapshots filter targetId once once = once.
Proof.
  simpl. unfold transferSnapshots at 1. simpl. unfold Snapshot.findAll.
  rewrite (transfer_twice Snapshot.playerId Snapshot.createdAt Snapshot.moved
             Snapshot.akey Snapshot.store); [reflexivity | by intros | by intros; reflexivity].
Qed.

Lemma transferParticipations_twice filter targetId db :
  let once := transferParticipations filter targetId db db in
  transferParticipations filter targetId once once = once.
Proof.
  simpl. unfold transferParticipations at 1. simpl.
  unfold Participation.findAll.
  rewrite (transfer_twice Participation.playerId Participation.eventId
             Participation.moved Participation.key (fun _ p => p));
    [reflexivity | by intros | by intros; reflexivity].
Qed.

Lemma transferMemberships_twice filter targetId db :
  let once := transferMemberships filter targetId db db in
  transferMemberships filter targetId once once = once.
Proof.
  simpl. unfold transferMemberships at 1. simpl. unfold Membership.findAll.
  rewrite (transfer_twice Membership.playerId Membership.groupId
             Membership.moved Membership.key (fun _ m => m));
    [reflexivity | by intros | by intros; reflexivity].
Qed.

(** C8.  Each of the three transfers, run with the filter of a new player
    [rid] and a transition date [tr], keeps the rows there are, in place,
    and appends rows that are copies of rows of [rid] created at [tr] or
    later: a new snapshot has the target for player and the creation date
    and the metrics of the row it copies, a new participation the target and
    the event and the creation date of its row, a new membership the target
    and the group, the role and the two dates of its row.  Afterwards the
    table has, for each such row of [rid], a row of the target with its
    creation date (snapshots), event (participations) or group
    (memberships), which is such a copy if the target had none before; and
    no pair of owner and such a column is used twice if none was.  With any
    filter, a second run on the result of a first changes nothing, so
    that the tables have as many rows after two runs as after one. *)
Theorem natural_key_transfers rid tr targetId db :
  let filter := {| where_playerId := rid; where_gte := Some tr |} in
  transferred Snapshot.key Snapshot.createdAt snapshotCopy rid tr targetId
    (snapshots db) (snapshots (transferSnapshots filter targetId db db))
  ∧ transferred Participation.key Participation.createdAt participationCopy
      rid tr targetId (participations db)
      (participations (transferParticipations filter targetId db db))
  ∧ transferred Membership.key Membership.createdAt membershipCopy
      rid tr targetId (memberships db)
      (memberships (transferMemberships filter targetId db db))
  ∧ ∀ filter,
      (let once := transferSnapshots filter targetId db db in
       transferSnapshots filter targetId once once = once
       ∧ length (snapshots (transferSnapshots filter targetId once once))
         = length (snapshots once))
      ∧ (let once := transferParticipations filter targetId db db in
         transferParticipations filter targetId once once = once
         ∧ length (participations
                     (transferParticipations filter targetId once once))
           = length (participations once))
      ∧ (let once := transferMemberships filter targetId db db in
         transferMemberships filter targetId once once = once
         ∧ length (memberships (transferMemberships filter targetId once once))
           = length (memberships once)).
Proof.
  cbv zeta. split; [|split; [|split]].
  - apply (transfer_transferred Snapshot.playerId Snapshot.createdAt
             Snapshot.moved Snapshot.akey Snapshot.store); try done.
    intros s. apply selects_since.
  - apply (transfer_transferred Participation.playerId Participation.eventId
             Participation.moved Participation.key (fun _ p => p)); try done.
    intros p. apply selects_since.
  - apply (transfer_transferred Membership.playerId Membership.groupId
             Membership.moved Membership.key (fun _ m => m)); try done.
    intros m. apply selects_since.
  - intros filter.
    pose proof (transferSnapshots_twice filter targetId db) as Hs.
    pose proof (transferParticipations_twice filter targetId db) as Hp.
    pose proof (transferMemberships_twice filter targetId db) as Hm.
    cbv zeta in Hs, Hp, Hm. rewrite Hs, Hp, Hm. done.
Qed.
End Transfers.


(** ** The preview of a request *)

Lemma findLatest_None pid db :
  snapshotService.findLatest pid db = None ↔
  ∀ s, s ∈ snapshots db → Snapshot.playerId s ≠ pid.
Proof.
  unfold snapshotService.findLatest.
  assert (Hfold : ∀ l, foldr snapshotService.later None l = None ↔ l = []).
  { intros [|s l]; [done|]. simpl.
    unfold snapshotService.later at 1.
    by destruct (foldr _ _ l); [case_bool_decide|]. }
  rewrite Hfold. split.
  - intros Hnil s Hs Hpid.
    assert (Hin : s ∈ base.filter (fun s => Snapshot.playerId s = pid)
                        (snapshots db)).
    { by apply list_elem_of_filter. }
    rewrite Hnil in Hin. by apply elem_of_nil in Hin.
  - intros Hnone.
    destruct (base.filter _ (snapshots db)) as [|s l] eqn:E; [done|].
    assert (Hin : s ∈ base.filter (fun s => Snapshot.playerId s = pid)
                        (snapshots db)).
    { rewrite E. left. }
    apply list_elem_of_filter in Hin as [Hpid Hin]. by apply Hnone in Hin.
Qed.

(** The snapshot found is the player's, and none of his is more recent. *)
Lemma findLatest_Some pid db s :
  snapshotService.findLatest pid db = Some s →
  s ∈ snapshots db ∧ Snapshot.playerId s = pid
  ∧ ∀ s', s' ∈ snapshots db → Snapshot.playerId s' = pid →
      Snapshot.createdAt s' ≤ Snapshot.createdAt s.
Proof.
  unfold snapshotService.findLatest.
  assert (Hfold : ∀ (l : list Snapshot.t) s,
    foldr snapshotService.later None l = Some s →
    s ∈ l ∧ ∀ s', s' ∈ l → Snapshot.createdAt s' ≤ Snapshot.createdAt s).
  { induction l as [|a l IH]; intros s0; simpl; [done|].
    unfold snapshotService.later at 1.
    destruct (foldr snapshotService.later None l) as [b|] eqn:E.
    - destruct (IH b eq_refl) as [Hb Hmax]. case_bool_decide as Hlt.
      + intros [= <-]. split; [left|].
        intros s' [->|Hs']%elem_of_cons; [lia|]. specialize (Hmax s' Hs'). lia.
      + intros [= <-]. split; [by right|].
        intros s' [->|Hs']%elem_of_cons; [lia | by apply Hmax].
    - intros [= <-]. destruct l as [|c l]; [|simpl in E].
      + split; [left|]. intros s' [->|[]%elem_of_nil]%elem_of_cons. lia.
      + unfold snapshotService.later at 1 in E.
        by destruct (foldr _ _ l); [case_bool_decide|]. }
  intros H. apply Hfold in H as [Hin Hmax].
  apply list_elem_of_filter in Hin as [Hpid Hin]. repeat split; try done.
  intros s' Hs' Hpid'. apply Hmax. by apply list_elem_of_filter.
Qed.

Section ReporterFacts.
Variable getHiscoresData : string → result string.
Variable fromRS : Z → string → Details.stats.
Variable hasNegativeGains : Details.stats → Details.stats → bool.
Variable Formatted : Type.
Variable format : option Details.stats → Formatted.
Variable calculateEHPDiff : Details.stats → Details.stats → Q.
Variable calculateEHBDiff : Details.stats → Details.stats → Q.

Abbreviation tryHiscores := (tryHiscores getHiscoresData).
Abbreviation getDetails :=
  (getDetails getHiscoresData fromRS hasNegativeGains Formatted format
     calculateEHPDiff calculateEHBDiff).

Lemma tryHiscores_Ok name :
  (∀ e, getHiscoresData name = Err e → classOf e ≠ Server) →
  ∃ h, tryHiscores name = Ok h.
Proof.
  intros H. unfold tryHiscores.
  destruct (getHiscoresData name) as [h|e]; [by eauto|].
  rewrite bool_decide_eq_false_2 by (by apply H). eauto.
Qed.

(** C9.  Let a request exist and neither hiscores lookup throw a
    ServerError.  If no tracked player has the old name of the request,
    [getDetails] throws the TypeError of reading [id] of null; if the old
    player is tracked and has no snapshot, it throws the TypeError of
    reading [createdAt] of null.  Neither is a NotFoundError, and no
    details are returned. *)
Theorem getDetails_null_dereference now id db r :
  nameChanges db !! id = Some r →
  (∀ e, getHiscoresData (NameChange.newName r) = Err e → classOf e ≠ Server) →
  (∀ e, getHiscoresData (NameChange.oldName r) = Err e → classOf e ≠ Server) →
  ((∀ i p, players db !! i = Some p →
      Player.username p ≠ NameChange.oldName r) →
   getDetails now id db = Err nullId)
  ∧ (∀ oldPlayer,
       playerService.find (NameChange.oldName r) db = Some oldPlayer →
       (∀ s, s ∈ snapshots db → Snapshot.playerId s ≠ oldPlayer.1) →
       getDetails now id db = Err nullCreatedAt)
  ∧ classOf nullId = Type_ ∧ classOf nullCreatedAt = Type_
  ∧ Type_ ≠ NotFound.
Proof.
  intros Hr Hnew Hold.
  destruct (tryHiscores_Ok _ Hnew) as [hn Hhn].
  destruct (tryHiscores_Ok _ Hold) as [ho Hho].
  split; [|split; [|done]].
  - intros Hgone. apply find_None in Hgone.
    unfold getDetails, NameChange.findOne. rewrite Hr. simpl.
    rewrite Hhn. simpl. rewrite Hho. simpl. by rewrite Hgone.
  - intros oldPlayer Ho Hnone. apply findLatest_None in Hnone.
    unfold getDetails, NameChange.findOne. rewrite Hr. simpl.
    rewrite Hhn. simpl. rewrite Hho. simpl. rewrite Ho, Hnone.
    by destruct (playerService.find (NameChange.newName r) db).
Qed.
End ReporterFacts.

(** ** The properties at work on the small database *)

Lemma uniqueRecords_NoDup (tbl : gmap Z Record_.t) :
  NoDup (recordKey <$> (map_to_list tbl).*2) → uniqueRecords tbl.
Proof.
  intros Hnd i j ri rj Hi Hj Hpid Hm Hp.
  apply elem_of_map_to_list, list_elem_of_lookup in Hi as [a Ha].
  apply elem_of_map_to_list, list_elem_of_lookup in Hj as [b Hb].
  assert (a = b) as ->.
  { eapply NoDup_lookup; [exact Hnd| |].
    - rewrite !list_lookup_fmap, Ha. reflexivity.
    - rewrite !list_lookup_fmap, Hb. simpl. unfold recordKey.
      by rewrite Hpid, Hm, Hp. }
  congruence.
Qed.

(** Approving the request to rename bob to bobby deletes the tracked bobby
    and renames bob. *)
Lemma approve_renames_donor_witness :
  ∃ nc db',
    approve Sample.password Sample.lower false noFaults 5000 1
      Sample.password Sample.db = (Ok nc, db')
    ∧ players db' !! 2 = None
    ∧ players db' !! 1 = Some (Player.mk "bobby" "bobby").
Proof.
  eexists _, _. split; [vm_compute; reflexivity|].
  match goal with
  | |- players ?d !! _ = _ ∧ _ =>
      destruct (approve_renames_donor Sample.password Sample.lower false
                  noFaults 5000 1 Sample.password Sample.db
                  (1, NameChange.set_resolvedAt (Some 5000)
                        (NameChange.set_status NameChange.APPROVED
                           (Sample.request 1 "bob" "bobby"
                              NameChange.PENDING)))
                  d ltac:(vm_compute; reflexivity))
        as (r & oid & op & Hr & Ho & Hgone & Hren)
  end.
  vm_compute in Hr. injection Hr as <-.
  vm_compute in Ho. injection Ho as <- <-.
  split.
  - apply (Hgone 2 Sample.bobby). vm_compute. reflexivity.
  - apply Hren. intros nid np Hn. vm_compute in Hn. injection Hn as <- _.
    lia.
Defined.

(** Bob's weekly attack record of 100, updated at 900, meets bobby's 150
    and becomes 150, updated at the time of the merge; his daily record of
    30 meets bobby's 20 and stays as it is. *)
Lemma merge_raises_records_to_max_witness :
  ∃ db',
    transferData Sample.lower false noFaults 5000 (1, Sample.bob)
      (Some (2, Sample.bobby)) "bobby" Sample.db = (Ok tt, db')
    ∧ ∃ week day,
        records db' !! 1 = Some week
        ∧ (Record_.value week = 150 ∧ Record_.updatedAt week = 5000
           ∧ recordKey week = (1, "attack", "week"))
        ∧ records db' !! 4 = Some day
        ∧ (Record_.value day = 30 ∧ Record_.updatedAt day = 900
           ∧ recordKey day = (1, "attack", "day")).
Proof.
  eexists. split; [vm_compute; reflexivity|].
  match goal with
  | |- ∃ _ _, records ?d !! _ = _ ∧ _ =>
      destruct (merge_raises_records_to_max Sample.lower false noFaults 5000
                  (1, Sample.bob) (2, Sample.bobby) "bobby" Sample.db d
                  ltac:(vm_compute; reflexivity)) as [Hmax _]
  end.
  assert (Huniq : uniqueRecords (records Sample.db)).
  { apply uniqueRecords_NoDup. apply (bool_decide_unpack _). vm_compute.
    exact I. }
  destruct (Hmax 1000 1 (Record_.mk 1 "attack" "week" 100 900)
              2 (Record_.mk 2 "attack" "week" 150 2000))
    as (week & Hweek & Hwv & Hwk & Hwd);
    [exact Huniq | vm_compute; reflexivity .. | vm_compute; discriminate
    | reflexivity | reflexivity |].
  destruct (Hmax 1000 4 (Record_.mk 1 "attack" "day" 30 900)
              5 (Record_.mk 2 "attack" "day" 20 2500))
    as (day & Hday & Hdv & Hdk & Hdd);
    [exact Huniq | vm_compute; reflexivity .. | vm_compute; discriminate
    | reflexivity | reflexivity |].
  exists week, day.
  split; [exact Hweek|]. split; [by repeat split|].
  split; [exact Hday|]. by repeat split.
Defined.

(** Bobby has a weekly strength record and bob has none: he has none after
    the merge either. *)
Lemma merge_creates_no_record_witness :
  ∃ db',
    transferData Sample.lower false noFaults 5000 (1, Sample.bob)
      (Some (2, Sample.bobby)) "bobby" Sample.db = (Ok tt, db')
    ∧ sameRecordKeys (records Sample.db) (records db')
    ∧ hasRecord (records Sample.db) 2 "strength" "week"
    ∧ ¬ hasRecord (records db') 1 "strength" "week".
Proof.
  eexists. split; [vm_compute; reflexivity|].
  match goal with
  | |- sameRecordKeys _ (records ?d) ∧ _ =>
      pose proof (proj2 (proj2 (proj2
        (merge_creates_no_record Sample.lower false 5000
           {| where_playerId := 2; where_gte := Some 1000 |} 1 Sample.db)))
        noFaults (1, Sample.bob) (2, Sample.bobby) "bobby" d
        ltac:(vm_compute; reflexivity)) as Hsame
  end.
  split; [exact Hsame|]. split.
  - exists 3, (Record_.mk 2 "strength" "week" 50 2500).
    split; vm_compute; reflexivity.
  - destruct Hsame as (_ & _ & Hhas). rewrite Hhas.
    intros (i & r & Hr & Hk). apply elem_of_map_to_list in Hr.
    vm_compute in Hr.
    repeat (apply elem_of_cons in Hr as [Hr|Hr];
            [injection Hr as -> ->; discriminate Hk|]).
    by apply elem_of_nil in Hr.
Defined.


(** The three outcomes of a submission. *)
Lemma submit_outcomes_witness :
  submit 7 "zezima" "bobby" Sample.db = (Err (notTracked "zezima"), Sample.db)
  ∧ submit 7 "bob" "bobby" Sample.db = (Err similarPending, Sample.db)
  ∧ ∃ id r,
      submit 7 "bob" "bobbo" Sample.db
      = (Ok (id, r),
         set_nameChanges (<[id := r]> (nameChanges Sample.db)) Sample.db)
      ∧ nameChanges Sample.db !! id = None
      ∧ NameChange.status r = NameChange.PENDING.
Proof.
  split; [|split].
  - apply (proj1 (submit_outcomes 7 "zezima" "bobby" Sample.db)).
    apply find_None. vm_compute. reflexivity.
  - apply (proj1 (proj2 (submit_outcomes 7 "bob" "bobby" Sample.db))
             1 Sample.bob 1
             (Sample.request 1 "bob" "bobby" NameChange.PENDING));
      vm_compute; reflexivity.
  - destruct (proj1 (proj2 (proj2 (submit_outcomes 7 "bob" "bobbo" Sample.db)))
                1 Sample.bob ltac:(vm_compute; reflexivity)
                ltac:(reflexivity))
      as (id & pid & p' & _ & _ & Hfresh & Hsub & _).
    + apply findOneWhere_None. vm_compute. reflexivity.
    + eexists id, _. split; [exact Hsub|]. split; [exact Hfresh | reflexivity].
Defined.

(** The three rejections. *)
Lemma deny_approve_rejections_witness :
  deny Sample.password 9 "guess" Sample.db = (Err idNotFound, Sample.db)
  ∧ approve Sample.password Sample.lower false noFaults 5000 2
      Sample.password Sample.db = (Err notPending, Sample.db)
  ∧ deny Sample.password 1 "guess" Sample.db
    = (Err incorrectPassword, Sample.db)
  ∧ classOf notPending = classOf incorrectPassword.
Proof.
  split; [|split; [|split]].
  - apply (proj1 (deny_approve_rejections Sample.password Sample.lower false
                    noFaults 5000 9 "guess" Sample.db)).
    vm_compute. reflexivity.
  - apply (proj1 (proj2 (deny_approve_rejections Sample.password Sample.lower
                           false noFaults 5000 2 Sample.password Sample.db))
             (Sample.request 1 "bob" "bobbie" NameChange.DENIED)).
    + vm_compute. reflexivity.
    + discriminate.
  - apply (proj1 (proj2 (proj2 (deny_approve_rejections Sample.password
                                  Sample.lower false noFaults 5000 1 "guess"
                                  Sample.db)))
             (Sample.request 1 "bob" "bobby" NameChange.PENDING)).
    + vm_compute. reflexivity.
    + reflexivity.
    + discriminate.
  - reflexivity.
Defined.

(** What a caller without the password learns about requests 9, 2 and 1. *)
Lemma credential_checked_last_witness :
  (deny Sample.password 9 "guess" Sample.db).1 = Err idNotFound
  ∧ (approve Sample.password Sample.lower false noFaults 5000 2 "guess"
       Sample.db).1 = Err notPending
  ∧ (approve Sample.password Sample.lower false noFaults 5000 1 "guess"
       Sample.db).1 = Err incorrectPassword.
Proof.
  assert (Hpw : "guess" ≠ Sample.password) by discriminate.
  split; [|split].
  - apply (proj1 (credential_checked_last Sample.password Sample.lower false
                    noFaults 5000 9 "guess" Sample.db Hpw)).
    vm_compute. reflexivity.
  - apply (proj1 (proj2 (credential_checked_last Sample.password Sample.lower
                           false noFaults 5000 2 "guess" Sample.db Hpw))
             (Sample.request 1 "bob" "bobbie" NameChange.DENIED)).
    + vm_compute. reflexivity.
    + discriminate.
  - apply (proj1 (proj2 (proj2 (proj2
             (credential_checked_last Sample.password Sample.lower false
                noFaults 5000 1 "guess" Sample.db Hpw))))).
    exists (Sample.request 1 "bob" "bobby" NameChange.PENDING).
    split; [vm_compute; reflexivity | reflexivity].
Defined.

(** Once denied, request 1 stays as it is, whatever is called next. *)
Lemma status_changes_at_most_once_witness :
  let cs1 := [Deny 1 Sample.password] in
  let cs2 := [Approve noFaults 5000 1 Sample.password;
              Submit 6000 "bob" "bobby";
              Deny 1 Sample.password] in
  ∃ r1 r2,
    nameChanges (run Sample.password Sample.lower false cs1 Sample.db) !! 1
    = Some r1
    ∧ nameChanges
        (run Sample.password Sample.lower false cs2
           (run Sample.password Sample.lower false cs1 Sample.db)) !! 1
      = Some r2
    ∧ NameChange.status r1 = NameChange.DENIED
    ∧ NameChange.resolvedAt r1 = None
    ∧ r2 = r1.
Proof.
  intros cs1 cs2.
  destruct (status_changes_at_most_once Sample.password Sample.lower false
              cs1 cs2 Sample.db 1
              (Sample.request 1 "bob" "bobby" NameChange.PENDING)
              ltac:(vm_compute; reflexivity))
    as (r1 & r2 & H1 & H2 & _ & _ & Hsettled & _ & Hdate).
  exists r1, r2. split; [exact H1|]. split; [exact H2|].
  vm_compute in H1. injection H1 as <-.
  split; [reflexivity|]. split; [reflexivity|].
  apply Hsettled. discriminate.
Defined.

(** Of bobby's snapshots at 900, 1000 and 3000, the one at 3000 is copied to
    bob: the one at 900 is before the transition and bob has one at 1000.  A
    second run copies nothing. *)
Lemma natural_key_transfers_witness :
  let filter := {| where_playerId := 2; where_gte := Some 1000 |} in
  let once := transferSnapshots false filter 1 Sample.db Sample.db in
  Snapshot.createdAt <$> snapshots once = [1000; 900; 1000; 3000; 3000]
  ∧ Snapshot.playerId <$> snapshots once = [1; 2; 2; 2; 1]
  ∧ transferSnapshots false filter 1 once once = once
  ∧ length (memberships
              (transferMemberships false filter 1 Sample.db Sample.db)) = 4%nat.
Proof.
  intros filter once.
  split; [vm_compute; reflexivity|]. split; [vm_compute; reflexivity|].
  split; [|vm_compute; reflexivity].
  apply (proj1 (proj1 (proj2 (proj2 (proj2
           (natural_key_transfers false 2 1000 1 Sample.db))) filter))).
Defined.

(** The previews of request 3 (zezima is not tracked) and of request 4
    (alice has no snapshot). *)
Lemma getDetails_null_dereference_witness :
  let details :=
    getDetails Sample.noHiscores (fun _ _ => Details.mkStats 0 None [])
      (fun _ _ => false) unit (fun _ => tt)
      (fun _ _ => inject_Z 0) (fun _ _ => inject_Z 0) 5000 in
  details 3 Sample.db = Err nullId
  ∧ details 4 Sample.db = Err nullCreatedAt.
Proof.
  intros details. split.
  - apply (proj1 (getDetails_null_dereference Sample.noHiscores
                    (fun _ _ => Details.mkStats 0 None []) (fun _ _ => false)
                    unit (fun _ => tt) (fun _ _ => inject_Z 0)
                    (fun _ _ => inject_Z 0) 5000 3 Sample.db
                    (Sample.request 9 "zezima" "bobby" NameChange.PENDING)
                    ltac:(vm_compute; reflexivity)
                    ltac:(by intros e [= <-])
                    ltac:(by intros e [= <-]))).
    apply find_None. vm_compute. reflexivity.
  - apply (proj1 (proj2 (getDetails_null_dereference Sample.noHiscores
                    (fun _ _ => Details.mkStats 0 None []) (fun _ _ => false)
                    unit (fun _ => tt) (fun _ _ => inject_Z 0)
                    (fun _ _ => inject_Z 0) 5000 4 Sample.db
                    (Sample.request 3 "alice" "bobby" NameChange.PENDING)
                    ltac:(vm_compute; reflexivity)
                    ltac:(by intros e [= <-])
                    ltac:(by intros e [= <-])))
             (3, Sample.alice)).
    + vm_compute. reflexivity.
    + apply findLatest_None. vm_compute. reflexivity.
Defined.

(** ** Where the code departs from the specification *)

(** C1, as stated, does not hold.  A request to rename bob to bob is
    accepted; when it is approved, the player holding the new name is bob
    himself: the merge deletes his row, the update that follows finds no
    row, and the approval returns with the old player gone.  And where the
    old player is renamed, he gets the standardized name: with lower case
    standing in for [playerService.standardize], approving the request to
    rename alice to Alicia leaves her named alicia. *)
Lemma approve_donor_not_renamed_as_requested :
  let submitted := submit 500 "bob" "bob" Sample.lone in
  let approved :=
    approve Sample.password (fun n => n) false noFaults 5000 0
      Sample.password submitted.2 in
  let lowered :=
    approve Sample.password Sample.lower false noFaults 5000 5
      Sample.password Sample.db in
  players Sample.lone !! 1 = Some Sample.bob
  ∧ submitted.1
    = Ok (0, NameChange.mk 1 "bob" "bob" NameChange.PENDING None 500)
  ∧ approved.1
    = Ok (0, NameChange.mk 1 "bob" "bob" NameChange.APPROVED (Some 5000) 500)
  ∧ players approved.2 !! 1 = None
  ∧ (∀ i p, players approved.2 !! i = Some p → Player.username p ≠ "bob")
  ∧ lowered.1
    = Ok (5, NameChange.mk 3 "alice" "Alicia" NameChange.APPROVED
               (Some 5000) 500)
  ∧ players lowered.2 !! 3 = Some (Player.mk "alicia" "alicia").
Proof.
  repeat split; try (vm_compute; reflexivity).
  intros i p Hp. vm_compute in Hp. discriminate Hp.
Qed.


(** C5, as stated, does not hold.  For an old name that no tracked player
    has, [submit] throws an error whose class is BadRequestError, not
    NotFoundError; and the error for a pending duplicate is of that same
    class. *)
Lemma submit_untracked_is_bad_request :
  playerService.find "zezima" Sample.db = None
  ∧ (submit 7 "zezima" "bobby" Sample.db).1
    = Err (BadRequestError "Player 'zezima' is not tracked yet.")
  ∧ classOf (BadRequestError "Player 'zezima' is not tracked yet.") ≠ NotFound
  ∧ (submit 7 "bob" "bobby" Sample.db).1
    = Err (BadRequestError
             "There's already a similar pending name change request.").
Proof. repeat split; try (vm_compute; reflexivity). discriminate. Qed.

(** C6, as stated, does not hold.  The error for a request that is not
    PENDING and the error for a wrong password are both BadRequestErrors:
    the errors of [deny] (and of [approve]) are of two classes, not three. *)
Lemma not_pending_and_bad_password_share_class :
  ∃ e1 e2,
    (deny Sample.password 2 Sample.password Sample.db).1 = Err e1
    ∧ (deny Sample.password 1 "guess" Sample.db).1 = Err e2
    ∧ (approve Sample.password (fun n => n) false noFaults 5000 2
         Sample.password Sample.db).1 = Err e1
    ∧ (approve Sample.password (fun n => n) false noFaults 5000 1 "guess"
         Sample.db).1 = Err e2
    ∧ e1 ≠ e2
    ∧ classOf e1 = BadRequest ∧ classOf e2 = BadRequest.
Proof.
  exists notPending, incorrectPassword.
  repeat split; try (vm_compute; reflexivity). discriminate.
Qed.

(** * Further properties of the service *)

(** ** The list of requests *)

#[global] Instance newerFirst_trans : Transitive newerFirst.
Proof. unfold newerFirst. intros a b c. lia. Qed.

#[global] Instance newerFirst_total : Total newerFirst.
Proof. unfold newerFirst. intros a b. lia. Qed.

Lemma StronglySorted_take_drop {A} (R : relation A) (l : list A) n m :
  StronglySorted R l → StronglySorted R (take n (drop m l)).
Proof.
  intros H. rewrite <- (take_drop m l) in H.
  apply StronglySorted_app_1_r in H.
  rewrite <- (take_drop n (drop m l)) in H.
  by apply StronglySorted_app_1_l in H.
Qed.

(** X1.  [getList] returns stored requests of the requested status only,
    none of them twice, the newer before the older, and at most [limit] of
    them; from offset 0 and with a limit that the number of requests does
    not exceed, it returns every request of the status. *)
Theorem getList_page status pagination db :
  let page := getList status pagination db in
  (∀ ir, ir ∈ page →
     nameChanges db !! ir.1 = Some ir.2 ∧ NameChange.status ir.2 = status)
  ∧ (length page ≤ limit pagination)%nat
  ∧ StronglySorted newerFirst page
  ∧ NoDup page.*1
  ∧ (offset pagination = 0%nat →
     (size (nameChanges db) ≤ limit pagination)%nat →
     ∀ i r, nameChanges db !! i = Some r → NameChange.status r = status →
            (i, r) ∈ page).
Proof.
  cbv zeta. unfold getList.
  set (matching := base.filter
         (fun ir : Z * NameChange.t => NameChange.status ir.2 = status)
         (map_to_list (nameChanges db))).
  set (sorted := merge_sort newerFirst matching).
  assert (Hperm : sorted ≡ₚ matching) by apply merge_sort_Permutation.
  assert (Hin : ∀ ir, ir ∈ sorted ↔
            nameChanges db !! ir.1 = Some ir.2
            ∧ NameChange.status ir.2 = status).
  { intros ir. rewrite Hperm. unfold matching.
    rewrite list_elem_of_filter, elem_of_map_to_list'. tauto. }
  split; [|split; [|split; [|split]]].
  - intros ir Hir. apply Hin.
    by apply (subseteq_drop (offset pagination)),
             (subseteq_take (limit pagination)).
  - rewrite length_take. lia.
  - apply StronglySorted_take_drop.
    apply StronglySorted_merge_sort; apply _.
  - apply (sublist_NoDup _ (sorted.*1)).
    + rewrite Hperm. apply (sublist_NoDup _ (map_to_list (nameChanges db)).*1).
      * apply NoDup_fst_map_to_list.
      * apply fmap_sublist, sublist_filter.
    + apply fmap_sublist.
      etrans; [apply sublist_take | apply sublist_drop].
  - intros -> Hlim i r Hr Hs. rewrite drop_0, take_ge.
    + by apply Hin.
    + rewrite Hperm. etrans; [apply length_filter|].
      by rewrite length_map_to_list.
Qed.

(** The two newest pending requests of the small database after the first,
    and all its pending requests. *)
Lemma getList_page_witness :
  (getList NameChange.PENDING (mkPagination 2 1) Sample.db).*1 = [3; 4]
  ∧ ∀ i r, nameChanges Sample.db !! i = Some r →
           NameChange.status r = NameChange.PENDING →
           (i, r) ∈ getList NameChange.PENDING (mkPagination 9 0) Sample.db.
Proof.
  split; [vm_compute; reflexivity|].
  apply (proj2 (proj2 (proj2 (proj2
           (getList_page NameChange.PENDING (mkPagination 9 0) Sample.db))))).
  - reflexivity.
  - vm_compute. lia.
Defined.

(** ** Requests that were resolved, and requests submitted again *)

Lemma find_players name db db' :
  players db' = players db →
  playerService.find name db' = playerService.find name db.
Proof. unfold playerService.find. by intros ->. Qed.

Lemma submit_Ok now o n db nc db' :
  submit now o n db = (Ok nc, db') →
  ∃ oldPlayer,
    playerService.find o db = Some oldPlayer
    ∧ NameChange.findOneWhere o n NameChange.PENDING (nameChanges db) = None
    ∧ nameChanges db !! nc.1 = None
    ∧ nc.2 = NameChange.mk oldPlayer.1 o n NameChange.PENDING None now
    ∧ db' = set_nameChanges (<[nc.1 := nc.2]> (nameChanges db)) db.
Proof.
  unfold submit.
  destruct (playerService.find o db) as [oldPlayer|] eqn:Ho; [|done].
  destruct (NameChange.findOneWhere _ _ _ _) eqn:Hp; [done|].
  intros [= <- <-]. exists oldPlayer. repeat split; try done.
  apply create_fresh.
Qed.

Section Resolved.
Variable ADMIN_PASSWORD : string.
Variable standardize : string → string.
Variable gteUndefined : bool.

Abbreviation deny := (deny ADMIN_PASSWORD).
Abbreviation approve := (approve ADMIN_PASSWORD standardize gteUndefined).

Lemma deny_Ok id pw db nc db' :
  deny id pw db = (Ok nc, db') →
  ∃ r,
    nameChanges db !! id = Some r
    ∧ NameChange.status r = NameChange.PENDING
    ∧ pw = ADMIN_PASSWORD
    ∧ nc = (id, NameChange.set_status NameChange.DENIED r)
    ∧ db' = set_nameChanges
              (alter (NameChange.set_status NameChange.DENIED) id
                 (nameChanges db)) db.
Proof.
  unfold deny, NameChange.findOne.
  destruct (nameChanges db !! id) as [r|] eqn:Hr; simpl; [|done].
  case_bool_decide as Hs; [done|]. case_bool_decide as Hpw; [done|].
  intros [= <- <-]. exists r. by repeat split.
Qed.

(** X2.  When [deny] returns, the request was PENDING and the password the
    administrator's; the request is now DENIED, no other request and no
    other table has changed, and from then on every [deny] and every
    [approve] of that request, with any password, throws [notPending] and
    changes nothing. *)
Theorem deny_is_final id pw db nc db' :
  deny id pw db = (Ok nc, db') →
  (∃ r, nameChanges db !! id = Some r
        ∧ NameChange.status r = NameChange.PENDING
        ∧ pw = ADMIN_PASSWORD
        ∧ nc = (id, NameChange.set_status NameChange.DENIED r)
        ∧ nameChanges db' !! id
          = Some (NameChange.set_status NameChange.DENIED r))
  ∧ (∀ j, j ≠ id → nameChanges db' !! j = nameChanges db !! j)
  ∧ set_nameChanges (nameChanges db) db' = db
  ∧ ∀ ft now pw',
      deny id pw' db' = (Err notPending, db')
      ∧ approve ft now id pw' db' = (Err notPending, db').
Proof.
  intros H. apply deny_Ok in H as (r & Hr & Hs & -> & -> & ->).
  assert (Hnew : nameChanges
            (set_nameChanges
               (alter (NameChange.set_status NameChange.DENIED) id
                  (nameChanges db)) db) !! id
          = Some (NameChange.set_status NameChange.DENIED r)).
  { simpl. by rewrite lookup_alter_eq, Hr. }
  split; [by exists r|]. split; [|split].
  - intros j Hj. simpl. by rewrite lookup_alter_ne.
  - by destruct db.
  - intros ft now pw'. split.
    + by eapply deny_not_pending.
    + by eapply approve_not_pending.
Qed.

(** X3.  When [approve] returns, the request is APPROVED and resolved at
    the time of the call, no other request has changed, and from then on
    every [deny] and every [approve] of that request, with any password,
    throws [notPending] and changes nothing: a merge is never run twice
    for one request. *)
Theorem approve_is_final ft now id pw db nc db' :
  approve ft now id pw db = (Ok nc, db') →
  nc.1 = id
  ∧ NameChange.status nc.2 = NameChange.APPROVED
  ∧ NameChange.resolvedAt nc.2 = Some now
  ∧ nameChanges db' !! id = Some nc.2
  ∧ (∀ j, j ≠ id → nameChanges db' !! j = nameChanges db !! j)
  ∧ ∀ ft' now' pw',
      deny id pw' db' = (Err notPending, db')
      ∧ approve ft' now' id pw' db' = (Err notPending, db').
Proof.
  intros H. apply approve_Ok in H
    as (r & oldPlayer & db1 & Hr & Hs & -> & Ho & Ht & -> & ->).
  pose proof (transferData_nameChanges standardize gteUndefined ft now oldPlayer
    (playerService.find (NameChange.newName r) db) (NameChange.newName r) db)
    as Hnc.
  rewrite Ht in Hnc. simpl in Hnc.
  assert (Hnew : nameChanges
            (set_nameChanges
               (alter (fun r => NameChange.set_resolvedAt (Some now)
                          (NameChange.set_status NameChange.APPROVED r))
                  id (nameChanges db1)) db1) !! id
          = Some (NameChange.set_resolvedAt (Some now)
                    (NameChange.set_status NameChange.APPROVED r))).
  { simpl. by rewrite lookup_alter_eq, Hnc, Hr. }
  repeat split; try done.
  - intros j Hj. simpl. by rewrite lookup_alter_ne, Hnc.
  - by eapply deny_not_pending.
  - by eapply approve_not_pending.
Qed.

(** X4.  After a submission that returned, the same two names cannot be
    submitted again: [submit] throws [similarPending] and changes nothing.
    Once that request has been denied they can: [submit] returns a new
    request, under another key. *)
Theorem submit_again now o n db nc db' :
  submit now o n db = (Ok nc, db') →
  (∀ now', submit now' o n db' = (Err similarPending, db'))
  ∧ ∀ pw denied db'' now',
      deny nc.1 pw db' = (Ok denied, db'') →
      ∃ nc2, (submit now' o n db'').1 = Ok nc2
             ∧ nc2.1 ≠ nc.1
             ∧ NameChange.status nc2.2 = NameChange.PENDING.
Proof.
  intros H. apply submit_Ok in H as (oldPlayer & Ho & Hnone & Hfresh & Hr & ->).
  destruct nc as [id r]. simpl in Hfresh, Hr |- *. subst r.
  set (r := NameChange.mk oldPlayer.1 o n NameChange.PENDING None now) in *.
  rewrite findOneWhere_None in Hnone. split.
  - intros now'. unfold submit.
    rewrite (find_players o db) by done. rewrite Ho.
    destruct (NameChange.findOneWhere _ _ _ _) eqn:E; [done|].
    exfalso. rewrite findOneWhere_None in E.
    apply (E id r); [|done]. simpl. apply lookup_insert_eq.
  - intros pw denied db'' now' Hd.
    apply deny_Ok in Hd as (r' & Hr' & _ & _ & _ & ->).
    simpl in Hr'. rewrite lookup_insert_eq in Hr'. injection Hr' as <-.
    unfold submit. rewrite (find_players o db) by done. rewrite Ho.
    destruct (NameChange.findOneWhere _ _ _ _) as [ir|] eqn:E.
    + exfalso. apply findOneWhere_Some in E as (Hl & Ho' & Hn' & Hs').
      simpl in Hl. destruct (decide (ir.1 = id)) as [Heq|Hne].
      * rewrite Heq, lookup_alter_eq, lookup_insert_eq in Hl.
        injection Hl as Hl. by rewrite <- Hl in Hs'.
      * rewrite lookup_alter_ne, lookup_insert_ne in Hl by done.
        by apply (Hnone ir.1 ir.2).
    + simpl. eexists. split; [done|]. split; [|done]. simpl.
      intros Heq.
      pose proof (is_fresh (dom (alter
        (NameChange.set_status NameChange.DENIED) id
        (<[id := r]> (nameChanges db))))) as Hf.
      rewrite Heq in Hf. apply Hf, elem_of_dom.
      rewrite lookup_alter_eq, lookup_insert_eq. by eexists.
Qed.
End Resolved.

(** ** Approvals without a player to merge, and requests gone stale *)

Section Renames.
Variable ADMIN_PASSWORD : string.
Variable standardize : string → string.
Variable gteUndefined : bool.

Abbreviation transferData := (transferData standardize gteUndefined).
Abbreviation approve := (approve ADMIN_PASSWORD standardize gteUndefined).

(** X5.  Let a PENDING request name a tracked old player and a new name
    that no tracked player has.  If the database rejects none of the four
    steps then reached (begin, latest snapshot, save, commit), whatever it
    would do to the transfer steps, [approve] with the administrator's
    password returns the request APPROVED and resolved now, and has renamed
    the old player to the standardized new name: no snapshot,
    participation, membership or record and no other player has changed. *)
Theorem approve_without_recipient ft now id db r oid op :
  nameChanges db !! id = Some r →
  NameChange.status r = NameChange.PENDING →
  playerService.find (NameChange.oldName r) db = Some (oid, op) →
  (∀ i p, players db !! i = Some p →
          Player.username p ≠ NameChange.newName r) →
  ft AtBegin = None → ft AtFindLatest = None →
  ft AtSave = None → ft AtCommit = None →
  let resolve r :=
    NameChange.set_resolvedAt (Some now)
      (NameChange.set_status NameChange.APPROVED r) in
  approve ft now id ADMIN_PASSWORD db
  = (Ok (id, resolve r),
     set_nameChanges (alter resolve id (nameChanges db))
       (set_players
          (alter (Player.rename (standardize (NameChange.newName r))) oid
             (players db))
          db)).
Proof.
  intros Hr Hs Ho Hnew Hb Hl Hsv Hc resolve.
  rewrite (approve_passes _ _ _ _ _ _ _ r) by done. rewrite Ho.
  rewrite (proj2 (find_None _ _) Hnew).
  unfold transferData, transferBody, await. rewrite Hb, Hl. simpl.
  by rewrite Hsv, Hc.
Qed.

(** X6.  Let [approve] return for a request whose old name only one
    tracked player had, the standardized new name being another name.
    Then no tracked player has the old name any more: every other PENDING
    request with that old name, when approved with the administrator's
    password, throws [oldPlayerGone] and changes nothing, and a submission
    for that old name throws [notTracked]. *)
Theorem approve_stales_old_name ft now id pw db nc db' r :
  approve ft now id pw db = (Ok nc, db') →
  nameChanges db !! id = Some r →
  (∀ i j p q, players db !! i = Some p → players db !! j = Some q →
     Player.username p = NameChange.oldName r →
     Player.username q = NameChange.oldName r → i = j) →
  standardize (NameChange.newName r) ≠ NameChange.oldName r →
  playerService.find (NameChange.oldName r) db' = None
  ∧ (∀ ft' now' id2 r2,
       nameChanges db !! id2 = Some r2 → id2 ≠ id →
       NameChange.status r2 = NameChange.PENDING →
       NameChange.oldName r2 = NameChange.oldName r →
       approve ft' now' id2 ADMIN_PASSWORD db' = (Err oldPlayerGone, db'))
  ∧ ∀ now' n,
      submit now' (NameChange.oldName r) n db'
      = (Err (notTracked (NameChange.oldName r)), db').
Proof.
  intros H Hr Huniq Hstd. pose proof H as Hfinal.
  apply approve_Ok in H
    as (r0 & [oid op] & db1 & Hr0 & Hs & -> & Ho & Ht & -> & ->).
  rewrite Hr in Hr0. injection Hr0 as <-.
  pose proof (transferData_nameChanges standardize gteUndefined ft now (oid, op)
    (playerService.find (NameChange.newName r) db) (NameChange.newName r) db)
    as Hnc.
  rewrite Ht in Hnc. simpl in Hnc.
  apply transferData_players in Ht. simpl in Ht.
  apply find_Some in Ho as [Hop Hname]. simpl in Hop, Hname.
  set (resolve := fun r => NameChange.set_resolvedAt (Some now)
                     (NameChange.set_status NameChange.APPROVED r)) in *.
  set (db' := set_nameChanges (alter resolve id (nameChanges db1)) db1) in *.
  assert (Hgone : playerService.find (NameChange.oldName r) db' = None).
  { apply find_None. intros i p Hip. unfold db' in Hip. simpl in Hip.
    rewrite Ht in Hip. destruct (decide (i = oid)) as [->|Hne].
    - rewrite lookup_alter_eq in Hip.
      apply fmap_Some in Hip as (q & _ & ->). done.
    - rewrite lookup_alter_ne in Hip by done. intros Hn.
      assert (Hdb : players db !! i = Some p).
      { destruct (playerService.find (NameChange.newName r) db); [|done].
        by apply lookup_delete_Some in Hip as [_ ?]. }
      apply Hne. by eapply Huniq. }
  split; [done|]. split.
  - intros ft' now' id2 r2 Hr2 Hne Hs2 Ho2.
    rewrite (approve_passes _ _ _ _ _ _ _ r2); try done.
    + by rewrite Ho2, Hgone.
    + unfold db'. simpl. by rewrite lookup_alter_ne, Hnc.
  - intros now' n. unfold submit. by rewrite Hgone.
Qed.
End Renames.

(** ** What a merge keeps *)

Lemma nextId_fresh (tbl : list Snapshot.t) s :
  s ∈ tbl → Snapshot.id s < Snapshot.nextId tbl.
Proof.
  unfold Snapshot.nextId.
  induction tbl as [|a tbl IH]; [by intros ?%elem_of_nil|].
  rewrite fmap_cons. cbn [foldr].
  intros [->|Hs]%elem_of_cons; [lia|]. specialize (IH Hs). lia.
Qed.

Lemma bulkCreate_snapshot_ids rows (tbl : list Snapshot.t) :
  NoDup (Snapshot.id <$> tbl) →
  NoDup (Snapshot.id <$>
           bulkCreate Snapshot.key Snapshot.akey Snapshot.store rows tbl).
Proof.
  revert tbl. induction rows as [|a rows IH]; intros tbl Hnd; [done|].
  rewrite bulkCreate_cons. apply IH.
  destruct (insertIgnore_cases Snapshot.key Snapshot.akey Snapshot.store tbl a)
    as [[_ ->]|[_ ->]]; [done|].
  rewrite fmap_app. apply NoDup_app. split; [done|]. split.
  - intros k Hk [->|[]%elem_of_nil]%elem_of_cons.
    apply list_elem_of_fmap in Hk as (s & Hid & Hs).
    apply nextId_fresh in Hs. simpl in Hid. lia.
  - apply NoDup_singleton.
Qed.

(** The rows a transfer appends belong to the target. *)
Lemma bulkCreate_owner {R A : Type} (key : R → Z * Z) (akey : A → Z * Z)
    (store : list R → A → R) (moved : R → A) targetId
    (rows : list R) (tbl : list R) :
  (∀ tbl' r, (key (store tbl' (moved r))).1 = targetId) →
  ∃ extra : list R,
    bulkCreate key akey store (moved <$> rows) tbl = (tbl ++ extra)%list
    ∧ ∀ r, r ∈ extra → (key r).1 = targetId.
Proof.
  intros Hown.
  destruct (bulkCreate_appends key akey store (moved <$> rows) tbl)
    as (extra & Heq & Hex).
  exists extra. split; [done|]. intros r Hr.
  destruct (Hex r Hr) as (a & tbl' & Ha & ->).
  apply list_elem_of_fmap in Ha as (r0 & -> & _). apply Hown.
Qed.

Section Kept.
Variable standardize : string → string.
Variable gteUndefined : bool.

Abbreviation transferRecords := (transferRecords gteUndefined).
Abbreviation transferSnapshots := (transferSnapshots gteUndefined).
Abbreviation transferParticipations := (transferParticipations gteUndefined).
Abbreviation transferMemberships := (transferMemberships gteUndefined).
Abbreviation transferData := (transferData standardize gteUndefined).

(** The history tables of a merge that commits are those its steps leave,
    less the memberships of the deleted player. *)
Lemma transferData_history ft now oldPlayer np newName db db' :
  transferData ft now oldPlayer (Some np) newName db = (Ok tt, db') →
  let filter :=
    {| where_playerId := np.1;
       where_gte :=
         Snapshot.createdAt <$> snapshotService.findLatest oldPlayer.1 db |} in
  snapshots db' = snapshots (transferSnapshots filter oldPlayer.1 db db)
  ∧ participations db'
    = participations (transferParticipations filter oldPlayer.1 db db)
  ∧ memberships db'
    = Membership.cascade np.1
        (memberships (transferMemberships filter oldPlayer.1 db db)).
Proof.
  intros (_ & _ & _ & E)%transferData_Ok. revert E.
  by_faults ft; intros [= <-]; done.
Qed.

(** X7.  A merge that commits keeps the history of every player but the
    deleted one: each snapshot, participation and membership of a player
    other than the new player is still there.  And it gives rows to the old
    player only: each snapshot, participation and membership there is
    afterwards was there before or is the old player's.  No membership of
    the deleted new player is left. *)
Theorem merge_keeps_history ft now oldPlayer np newName db db' :
  transferData ft now oldPlayer (Some np) newName db = (Ok tt, db') →
  (∀ s, s ∈ snapshots db → Snapshot.playerId s ≠ np.1 → s ∈ snapshots db')
  ∧ (∀ s, s ∈ snapshots db' →
          s ∈ snapshots db ∨ Snapshot.playerId s = oldPlayer.1)
  ∧ (∀ p, p ∈ participations db → Participation.playerId p ≠ np.1 →
          p ∈ participations db')
  ∧ (∀ p, p ∈ participations db' →
          p ∈ participations db ∨ Participation.playerId p = oldPlayer.1)
  ∧ (∀ m, m ∈ memberships db → Membership.playerId m ≠ np.1 →
          m ∈ memberships db')
  ∧ (∀ m, m ∈ memberships db' →
          Membership.playerId m ≠ np.1
          ∧ (m ∈ memberships db ∨ Membership.playerId m = oldPlayer.1)).
Proof.
  intros H. apply transferData_history in H as (Hs & Hp & Hm).
  rewrite Hs, Hp, Hm. clear Hs Hp Hm.
  destruct (bulkCreate_owner Snapshot.key Snapshot.akey Snapshot.store
              (Snapshot.moved oldPlayer.1) oldPlayer.1
              (Snapshot.findAll
                 (fun s => selects gteUndefined
                    {| where_playerId := np.1;
                       where_gte := Snapshot.createdAt <$>
                         snapshotService.findLatest oldPlayer.1 db |}
                    (Snapshot.playerId s) (Snapshot.createdAt s))
                 (snapshots db))
              (snapshots db)) as (sx & Hsx & Hsown); [done|].
  destruct (bulkCreate_owner Participation.key Participation.key
              (fun _ p => p) (Participation.moved oldPlayer.1) oldPlayer.1
              (Participation.findAll
                 (fun p => selects gteUndefined
                    {| where_playerId := np.1;
                       where_gte := Snapshot.createdAt <$>
                         snapshotService.findLatest oldPlayer.1 db |}
                    (Participation.playerId p) (Participation.createdAt p))
                 (participations db))
              (participations db)) as (px & Hpx & Hpown); [done|].
  destruct (bulkCreate_owner Membership.key Membership.key
              (fun _ m => m) (Membership.moved oldPlayer.1) oldPlayer.1
              (Membership.findAll
                 (fun m => selects gteUndefined
                    {| where_playerId := np.1;
                       where_gte := Snapshot.createdAt <$>
                         snapshotService.findLatest oldPlayer.1 db |}
                    (Membership.playerId m) (Membership.createdAt m))
                 (memberships db))
              (memberships db)) as (mx & Hmx & Hmown); [done|].
  unfold transferSnapshots, transferParticipations, transferMemberships.
  simpl. rewrite Hsx, Hpx, Hmx. unfold Membership.cascade.
  repeat split.
  - intros s Hin _. apply elem_of_app. by left.
  - intros s [Hin|Hin]%elem_of_app; [by left | right; by apply Hsown].
  - intros p Hin _. apply elem_of_app. by left.
  - intros p [Hin|Hin]%elem_of_app; [by left | right; by apply Hpown].
  - intros m Hin Hne. apply list_elem_of_filter. split; [done|].
    apply elem_of_app. by left.
  - by apply list_elem_of_filter in H as [Hne _].
  - apply list_elem_of_filter in H as [_ Hin].
    apply elem_of_app in Hin as [Hin|Hin]; [by left | right; by apply Hmown].
Qed.

(** X8.  A merge that commits keeps the keys unique: the unique indexes of
    the snapshots, participations and memberships, the keys of the
    snapshots, and the one record for a player, a metric and a period. *)
Theorem merge_keeps_keys_unique ft now oldPlayer np newName db db' :
  transferData ft now oldPlayer (Some np) newName db = (Ok tt, db') →
  (NoDup (Snapshot.key <$> snapshots db) →
   NoDup (Snapshot.key <$> snapshots db'))
  ∧ (NoDup (Snapshot.id <$> snapshots db) →
     NoDup (Snapshot.id <$> snapshots db'))
  ∧ (NoDup (Participation.key <$> participations db) →
     NoDup (Participation.key <$> participations db'))
  ∧ (NoDup (Membership.key <$> memberships db) →
     NoDup (Membership.key <$> memberships db'))
  ∧ (uniqueRecords (records db) → uniqueRecords (records db')).
Proof.
  intros H. pose proof (transferData_records _ _ _ _ _ _ _ _ _ H) as Hr.
  apply transferData_history in H as (Hs & Hp & Hm).
  rewrite Hs, Hp, Hm, Hr. clear Hs Hp Hm Hr.
  split; [|split; [|split; [|split]]].
  - by apply bulkCreate_NoDup.
  - apply bulkCreate_snapshot_ids.
  - by apply bulkCreate_NoDup.
  - intros Hnd. unfold Membership.cascade.
    eapply sublist_NoDup; [|apply fmap_sublist, sublist_filter].
    by apply bulkCreate_NoDup.
  - apply transferRecords_uniqueRecords.
Qed.
End Kept.

(** ** The merge of the records, once more *)

Section RecordsAgain.
Variable gteUndefined : bool.

Abbreviation selects := (selects gteUndefined).
Abbreviation outdated := (outdated gteUndefined).
Abbreviation transferRecords := (transferRecords gteUndefined).

(** The records of the other players stay as they are. *)
Lemma transferRecords_other now filter targetId db i r :
  records db !! i = Some r → Record_.playerId r ≠ targetId →
  records (transferRecords now filter targetId db db) !! i = Some r.
Proof.
  intros Hr Hne. rewrite transferRecords_lookup, Hr. simpl.
  rewrite raised_untouched; [done|].
  intros u Hu Hi. apply elem_of_outdated in Hu as (Ho & Hpid & _).
  rewrite Hi, Hr in Ho. injection Ho as Ho. by rewrite <- Ho in Hpid.
Qed.

(** X9.  The step that merges the records changes no record of a player
    other than the target (the records of the new player stay as they are),
    and no record of the target that no selected record of its metric and
    period exceeds. *)
Theorem transferRecords_untouched now filter targetId db i r :
  records db !! i = Some r →
  Record_.playerId r ≠ targetId
  ∨ (∀ j n, records db !! j = Some n →
       selects filter (Record_.playerId n) (Record_.updatedAt n) = true →
       Record_.metric n = Record_.metric r →
       Record_.period n = Record_.period r →
       Record_.value n ≤ Record_.value r) →
  records (transferRecords now filter targetId db db) !! i = Some r.
Proof.
  intros Hr Hcase. rewrite transferRecords_lookup, Hr. simpl.
  rewrite raised_untouched; [done|].
  intros u Hu Hi.
  apply elem_of_outdated in Hu
    as (Ho & Hpid & Hlt & j & n & Hn & Hsel & Hm & Hp & Hv).
  rewrite Hi, Hr in Ho. injection Ho as Ho. rewrite <- Ho in *.
  destruct Hcase as [Hne|Hle]; [done|].
  specialize (Hle j n Hn Hsel ltac:(done) ltac:(done)). lia.
Qed.

(** X10.  Where there is one record for a player, a metric and a period,
    merging the records a second time, at any time, changes nothing. *)
Theorem transferRecords_twice now now' filter targetId db :
  uniqueRecords (records db) →
  let once := transferRecords now filter targetId db db in
  transferRecords now' filter targetId once once = once.
Proof.
  intros Huniq once.
  assert (Hnone : outdated filter targetId once = []).
  { destruct (outdated filter targetId once) as [|u us] eqn:E; [done|].
    exfalso.
    assert (Hu : u ∈ outdated filter targetId once) by (rewrite E; left).
    apply elem_of_outdated in Hu
      as (Ho & Hpid & Hlt & j & n' & Hn' & Hsel & Hm & Hp & Hv).
    pose proof (transferRecords_uniqueRecords gteUndefined now filter targetId
                  db Huniq) as Huniq1.
    fold once in Huniq1.
    destruct (decide (Record_.playerId n' = targetId)) as [Heq|Hne].
    - assert (u.1.1 = j) as Hij.
      { eapply Huniq1; eauto. congruence. }
      rewrite Hij, Hn' in Ho. injection Ho as Ho. rewrite <- Ho in Hlt. lia.
    - pose proof Hn' as Hn. unfold once in Hn.
      rewrite transferRecords_lookup in Hn.
      destruct (records db !! j) as [n|] eqn:Ej; [|done].
      assert (Hkn : recordKey n' = recordKey n).
      { simpl in Hn. injection Hn as <-. apply raised_key. }
      assert (Hj : records once !! j = Some n).
      { apply transferRecords_other; [done|].
        unfold recordKey in Hkn. congruence. }
      rewrite Hn' in Hj. injection Hj as ->.
      pose proof Ho as Hd. unfold once in Hd.
      rewrite transferRecords_lookup in Hd.
      destruct (records db !! u.1.1) as [d|] eqn:Ei; [|done].
      assert (Hkd : recordKey u.1.2 = recordKey d).
      { simpl in Hd. injection Hd as <-. apply raised_key. }
      unfold recordKey in Hkd. injection Hkd as Hq1 Hq2 Hq3.
      destruct (transferRecords_max gteUndefined now filter targetId db
                  u.1.1 d j n) as (d' & Hd' & Hmax & _); try done;
        try congruence.
      fold once in Hd'. rewrite Ho in Hd'. injection Hd' as <-. lia. }
  unfold transferRecords at 1. rewrite Hnone. by destruct once.
Qed.
End RecordsAgain.

(** ** Valid roles *)

Section RolesKept.
Variable GROUP_ROLES : list string.
Variable standardize : string → string.
Variable gteUndefined : bool.

Abbreviation valid := (fun m => validateRole GROUP_ROLES m = None).

Lemma validateRole_role m m' :
  Membership.role m' = Membership.role m →
  validateRole GROUP_ROLES m = None → validateRole GROUP_ROLES m' = None.
Proof. unfold validateRole. by intros ->. Qed.

Lemma validateRole_None m :
  validateRole GROUP_ROLES m = None ↔ Membership.role m ∈ GROUP_ROLES.
Proof. unfold validateRole. by case_bool_decide. Qed.

(** X11.  If every membership passes [validateRole], so does every
    membership after the memberships were transferred, with any filter and
    to any target, and after a merge that commits: a transfer copies the
    role as it is. *)
Theorem transfers_keep_roles_valid db :
  Forall valid (memberships db) →
  (∀ filter targetId,
     Forall valid
       (memberships (transferMemberships gteUndefined filter targetId db db)))
  ∧ ∀ ft now oldPlayer np newName db',
      transferData standardize gteUndefined ft now oldPlayer (Some np) newName
        db
      = (Ok tt, db') →
      Forall valid (memberships db').
Proof.
  intros Hvalid.
  assert (Hstep : ∀ filter targetId,
    Forall valid
      (memberships (transferMemberships gteUndefined filter targetId db db))).
  { intros filter targetId. unfold transferMemberships. simpl.
    set (rows := Membership.moved targetId <$> _).
    destruct (bulkCreate_appends Membership.key Membership.key
                (fun _ m => m) rows (memberships db))
      as (extra & -> & Hex).
    apply Forall_app. split; [done|]. apply Forall_forall. intros m Hm.
    destruct (Hex m Hm) as (a & _ & Ha & ->). unfold rows in Ha.
    apply list_elem_of_fmap in Ha as (m0 & -> & Hm0).
    apply list_elem_of_filter in Hm0 as [_ Hm0].
    rewrite Forall_forall in Hvalid.
    by apply (validateRole_role m0); [|apply Hvalid]. }
  split; [done|]. intros ft now oldPlayer np newName db' H.
  apply transferData_history in H as (_ & _ & ->).
  unfold Membership.cascade. apply Forall_forall.
  intros m [_ Hm]%list_elem_of_filter.
  specialize (Hstep
    {| where_playerId := np.1;
       where_gte := Snapshot.createdAt <$>
                      snapshotService.findLatest oldPlayer.1 db |}
    oldPlayer.1).
  rewrite Forall_forall in Hstep. by apply Hstep.
Qed.
End RolesKept.

(** ** The preview of a request, once more *)

Section ReporterAgain.
Variable getHiscoresData : string → result string.
Variable fromRS : Z → string → Details.stats.
Variable hasNegativeGains : Details.stats → Details.stats → bool.
Variable Formatted : Type.
Variable format : option Details.stats → Formatted.
Variable calculateEHPDiff : Details.stats → Details.stats → Q.
Variable calculateEHBDiff : Details.stats → Details.stats → Q.

Abbreviation tryHiscores := (tryHiscores getHiscoresData).
Abbreviation getDetails :=
  (getDetails getHiscoresData fromRS hasNegativeGains Formatted format
     calculateEHPDiff calculateEHBDiff).

Lemma tryHiscores_Err name e :
  tryHiscores name = Err e ↔
  getHiscoresData name = Err e ∧ classOf e = Server.
Proof.
  unfold tryHiscores. destruct (getHiscoresData name) as [h|e'].
  - split; [done | by intros [? _]].
  - destruct (decide (classOf e' = Server)) as [Hc|Hc].
    + rewrite bool_decide_eq_true_2 by done. split.
      * by intros [= <-].
      * by intros [[= <-] _].
    + rewrite bool_decide_eq_false_2 by done. split; [done|].
      by intros [[= <-] ?].
Qed.

Lemma tryHiscores_Some name h :
  tryHiscores name = Ok (Some h) ↔ getHiscoresData name = Ok h.
Proof.
  unfold tryHiscores. destruct (getHiscoresData name) as [h'|e'].
  - split; by intros [= <-].
  - by destruct (bool_decide (classOf e' = Server)).
Qed.

(** X12.  [getDetails] throws [idNotFound] for an id that no request has,
    whatever the hiscores answer.  For a request, a ServerError of the
    hiscores lookup of the new name is thrown on, and so is, when the lookup
    of the new name did not throw one, a ServerError of the lookup of the
    old name: both before any player is looked up, so also when the old
    player is not tracked. *)
Theorem getDetails_throws now id db :
  (nameChanges db !! id = None → getDetails now id db = Err idNotFound)
  ∧ (∀ r e,
       nameChanges db !! id = Some r →
       getHiscoresData (NameChange.newName r) = Err e → classOf e = Server →
       getDetails now id db = Err e)
  ∧ (∀ r e,
       nameChanges db !! id = Some r →
       (∀ e', getHiscoresData (NameChange.newName r) = Err e' →
              classOf e' ≠ Server) →
       getHiscoresData (NameChange.oldName r) = Err e → classOf e = Server →
       getDetails now id db = Err e).
Proof.
  split; [|split].
  - intros H. unfold getDetails, NameChange.findOne. by rewrite H.
  - intros r e Hr He Hc. unfold getDetails, NameChange.findOne.
    rewrite Hr. simpl.
    by rewrite (proj2 (tryHiscores_Err _ _) (conj He Hc)).
  - intros r e Hr Hnew He Hc. unfold getDetails, NameChange.findOne.
    rewrite Hr. simpl.
    destruct (tryHiscores_Ok getHiscoresData _ Hnew) as [hn ->]. simpl.
    by rewrite (proj2 (tryHiscores_Err _ _) (conj He Hc)).
Qed.

(** X13.  When [getDetails] returns, it returns the request of the id; the
    old player is tracked and has a latest snapshot, which is the old stats
    of the preview; the new name is reported as tracked exactly when a
    tracked player has it, and each name as on the hiscores exactly when its
    lookup returned data that is not the empty string.  If the new name is
    neither on the hiscores nor tracked, there are no new stats: the time
    difference runs from the latest snapshot of the old player to now, both
    efficiency differences are zero and no negative gains are reported. *)
Theorem getDetails_returns now id db nc d :
  getDetails now id db = Ok (nc, d) →
  ∃ r oldPlayer os,
    nameChanges db !! id = Some r ∧ nc = (id, r)
    ∧ playerService.find (NameChange.oldName r) db = Some oldPlayer
    ∧ snapshotService.findLatest oldPlayer.1 db = Some os
    ∧ Details.oldStats Formatted d = format (Some (Details.loaded os))
    ∧ (Details.isNewTracked Formatted d = true ↔
       ∃ i p, players db !! i = Some p
              ∧ Player.username p = NameChange.newName r)
    ∧ (Details.isNewOnHiscores Formatted d = true ↔
       ∃ h, getHiscoresData (NameChange.newName r) = Ok h ∧ h ≠ EmptyString)
    ∧ (Details.isOldOnHiscores Formatted d = true ↔
       ∃ h, getHiscoresData (NameChange.oldName r) = Ok h ∧ h ≠ EmptyString)
    ∧ (Details.isNewOnHiscores Formatted d = false →
       Details.isNewTracked Formatted d = false →
       Details.newStats Formatted d = format None
       ∧ Details.timeDiff Formatted d = now - Snapshot.createdAt os
       ∧ Details.ehpDiff Formatted d = inject_Z 0
       ∧ Details.ehbDiff Formatted d = inject_Z 0
       ∧ Details.hasNegativeGains Formatted d = false).
Proof.
  unfold getDetails, NameChange.findOne.
  destruct (nameChanges db !! id) as [r|] eqn:Hr; simpl; [|done].
  destruct (tryHiscores (NameChange.newName r)) as [hn|] eqn:Hn; [|done].
  simpl.
  destruct (tryHiscores (NameChange.oldName r)) as [ho|] eqn:Hho; [|done].
  simpl.
  destruct (playerService.find (NameChange.oldName r) db) as [oldPlayer|]
    eqn:Ho; [|done].
  destruct (snapshotService.findLatest oldPlayer.1 db) as [os|] eqn:Hos;
    [|by destruct (playerService.find (NameChange.newName r) db)].
  assert (Hhis : ∀ name (o : option string),
    tryHiscores name = Ok o →
    (truthy o = true ↔ ∃ h, getHiscoresData name = Ok h ∧ h ≠ EmptyString)).
  { intros name o Hname. unfold truthy. split.
    - destruct o as [h|]; [|done]. rewrite bool_decide_eq_true. intros Hh.
      exists h. split; [by apply tryHiscores_Some | done].
    - intros (h & Hh & Hne). apply tryHiscores_Some in Hh.
      rewrite Hh in Hname. injection Hname as <-.
      by apply bool_decide_eq_true. }
  assert (Htracked :
    bool_decide (is_Some (playerService.find (NameChange.newName r) db)) = true
    ↔ ∃ i p, players db !! i = Some p
             ∧ Player.username p = NameChange.newName r).
  { rewrite bool_decide_eq_true. split.
    - intros [[i p] [? ?]%find_Some]. by exists i, p.
    - intros (i & p & ? & ?). by eapply find_tracked. }
  destruct (playerService.find (NameChange.newName r) db) as [np|] eqn:Hnp;
    simpl.
  - destruct (snapshotService.findFirstSince _ _ _); simpl;
      intros [= <- <-]; exists r, oldPlayer, os; simpl;
      repeat split; try done; try (by apply Htracked);
      try (by apply (Hhis _ _ Hn)); try (by apply (Hhis _ _ Hho)).
  - intros [= <- <-]. exists r, oldPlayer, os. simpl.
    repeat split; try done; try (by apply Htracked);
      try (by apply (Hhis _ _ Hn)); try (by apply (Hhis _ _ Hho)).
    all: match goal with H : truthy ?o = false |- _ => by rewrite H end.
Qed.
End ReporterAgain.

(** ** The further properties at work on the small database *)

Ltac enumerate H :=
  repeat first
    [ apply elem_of_nil in H; destruct H
    | apply elem_of_cons in H as [H|H] ].

(** Denying request 1 makes it DENIED for good. *)
Lemma deny_is_final_witness :
  ∃ nc db',
    deny Sample.password 1 Sample.password Sample.db = (Ok nc, db')
    ∧ NameChange.status nc.2 = NameChange.DENIED
    ∧ approve Sample.password Sample.lower false noFaults 5000 1
        Sample.password db' = (Err notPending, db').
Proof.
  eexists _, _. split; [vm_compute; reflexivity|]. split; [reflexivity|].
  match goal with
  | |- approve _ _ _ _ _ _ _ ?d = _ =>
      apply (proj2 (proj2 (proj2
               (deny_is_final Sample.password Sample.lower false 1
                  Sample.password Sample.db _ d
                  ltac:(vm_compute; reflexivity)))) noFaults 5000
               Sample.password)
  end.
Defined.

(** Approving request 1 makes it APPROVED for good. *)
Lemma approve_is_final_witness :
  ∃ nc db',
    approve Sample.password Sample.lower false noFaults 5000 1
      Sample.password Sample.db = (Ok nc, db')
    ∧ NameChange.status nc.2 = NameChange.APPROVED
    ∧ approve Sample.password Sample.lower false noFaults 6000 1
        Sample.password db' = (Err notPending, db').
Proof.
  eexists _, _. split; [vm_compute; reflexivity|]. split; [reflexivity|].
  match goal with
  | |- approve _ _ _ _ _ _ _ ?d = _ =>
      apply (proj2 (proj2 (proj2 (proj2 (proj2
               (approve_is_final Sample.password Sample.lower false noFaults
                  5000 1 Sample.password Sample.db _ d
                  ltac:(vm_compute; reflexivity)))))) noFaults 6000
               Sample.password)
  end.
Defined.

(** A request to rename bob to bobbo, submitted twice. *)
Lemma submit_again_witness :
  ∃ nc db',
    submit 7 "bob" "bobbo" Sample.db = (Ok nc, db')
    ∧ submit 8 "bob" "bobbo" db' = (Err similarPending, db').
Proof.
  eexists _, _. split; [vm_compute; reflexivity|].
  match goal with
  | |- submit _ _ _ ?d = _ =>
      apply (proj1 (submit_again Sample.password 7 "bob" "bobbo" Sample.db
                      _ d ltac:(vm_compute; reflexivity)) 8)
  end.
Defined.

(** Alice becomes alicia, though the database would reject any transfer. *)
Lemma approve_without_recipient_witness :
  let ft : faults := fun s =>
    match s with
    | AtBegin | AtFindLatest | AtSave | AtCommit => None
    | _ => Some (DatabaseError "deadlock detected")
    end in
  ∃ nc db',
    approve Sample.password Sample.lower false ft 5000 5 Sample.password
      Sample.db = (Ok nc, db')
    ∧ players db' !! 3 = Some (Player.mk "alicia" "alicia")
    ∧ snapshots db' = snapshots Sample.db
    ∧ records db' = records Sample.db.
Proof.
  intros ft. eexists _, _. split.
  - apply (approve_without_recipient Sample.password Sample.lower false ft
             5000 5 Sample.db
             (Sample.request 3 "alice" "Alicia" NameChange.PENDING)
             3 Sample.alice); try reflexivity.
    apply find_None. vm_compute. reflexivity.
  - split; [vm_compute; reflexivity|]. split; reflexivity.
Defined.

(** Once bob is bobby, nobody is bob. *)
Lemma approve_stales_old_name_witness :
  ∃ nc db',
    approve Sample.password Sample.lower false noFaults 5000 1
      Sample.password Sample.db = (Ok nc, db')
    ∧ playerService.find "bob" db' = None
    ∧ submit 6000 "bob" "bobbie" db' = (Err (notTracked "bob"), db').
Proof.
  eexists _, _. split; [vm_compute; reflexivity|].
  match goal with
  | |- playerService.find _ ?d = _ ∧ _ =>
      destruct (approve_stales_old_name Sample.password Sample.lower false
                  noFaults 5000 1 Sample.password Sample.db _ d
                  (Sample.request 1 "bob" "bobby" NameChange.PENDING)
                  ltac:(vm_compute; reflexivity)
                  ltac:(vm_compute; reflexivity))
        as (Hgone & _ & Hsub)
  end.
  - intros i j p q Hp Hq Hn1 Hn2.
    apply elem_of_map_to_list in Hp, Hq. vm_compute in Hp, Hq.
    enumerate Hp; injection Hp as -> ->; try discriminate Hn1;
      enumerate Hq; injection Hq as -> ->; try discriminate Hn2; reflexivity.
  - discriminate.
  - split; [exact Hgone | apply (Hsub 6000 "bobbie")].
Defined.

(** The merge of bobby into bob keeps bob's snapshots and leaves bobby no
    membership; it keeps the keys unique. *)
Lemma merge_keeps_history_witness :
  ∃ db',
    transferData Sample.lower false noFaults 5000 (1, Sample.bob)
      (Some (2, Sample.bobby)) "bobby" Sample.db = (Ok tt, db')
    ∧ (∀ s, s ∈ snapshots Sample.db → Snapshot.playerId s = 1 →
            s ∈ snapshots db')
    ∧ ∀ m, m ∈ memberships db' → Membership.playerId m ≠ 2.
Proof.
  eexists. split; [vm_compute; reflexivity|].
  match goal with
  | |- (∀ s, _ → _ → s ∈ snapshots ?d) ∧ _ =>
      destruct (merge_keeps_history Sample.lower false noFaults 5000
                  (1, Sample.bob) (2, Sample.bobby) "bobby" Sample.db d
                  ltac:(vm_compute; reflexivity))
        as (Hs & _ & _ & _ & _ & Hm)
  end.
  split.
  - intros s Hin Hpid. apply Hs; [exact Hin|]. rewrite Hpid. discriminate.
  - intros m Hin. by apply Hm.
Defined.

Lemma merge_keeps_keys_unique_witness :
  ∃ db',
    transferData Sample.lower false noFaults 5000 (1, Sample.bob)
      (Some (2, Sample.bobby)) "bobby" Sample.db = (Ok tt, db')
    ∧ NoDup (Snapshot.key <$> snapshots db')
    ∧ NoDup (Snapshot.id <$> snapshots db')
    ∧ NoDup (Membership.key <$> memberships db')
    ∧ uniqueRecords (records db').
Proof.
  eexists. split; [vm_compute; reflexivity|].
  match goal with
  | |- NoDup (_ <$> snapshots ?d) ∧ _ =>
      destruct (merge_keeps_keys_unique Sample.lower false noFaults 5000
                  (1, Sample.bob) (2, Sample.bobby) "bobby" Sample.db d
                  ltac:(vm_compute; reflexivity))
        as (Hk & Hi & _ & Hm & Hr)
  end.
  split; [|split; [|split]].
  - apply Hk. apply (bool_decide_unpack _). vm_compute. exact I.
  - apply Hi. apply (bool_decide_unpack _). vm_compute. exact I.
  - apply Hm. apply (bool_decide_unpack _). vm_compute. exact I.
  - apply Hr. apply uniqueRecords_NoDup. apply (bool_decide_unpack _).
    vm_compute. exact I.
Defined.

(** Bobby's records stay as they are when they are merged into bob's, and
    a second merge changes nothing. *)
Lemma transferRecords_untouched_witness :
  records (transferRecords false 5000
             {| where_playerId := 2; where_gte := Some 1000 |} 1
             Sample.db Sample.db) !! 2
  = Some (Record_.mk 2 "attack" "week" 150 2000).
Proof.
  apply transferRecords_untouched; [vm_compute; reflexivity|].
  left. discriminate.
Defined.

Lemma transferRecords_twice_witness :
  let once :=
    transferRecords false 5000
      {| where_playerId := 2; where_gte := Some 1000 |} 1
      Sample.db Sample.db in
  transferRecords false 6000
    {| where_playerId := 2; where_gte := Some 1000 |} 1 once once = once
  ∧ Record_.value <$> records once !! 1 = Some 150.
Proof.
  intros once. split; [|vm_compute; reflexivity].
  apply transferRecords_twice. apply uniqueRecords_NoDup.
  apply (bool_decide_unpack _). vm_compute. exact I.
Defined.

(** The roles of the small database are valid, and stay so. *)
Lemma transfers_keep_roles_valid_witness :
  Forall (fun m => validateRole ["member"; "leader"] m = None)
    (memberships
       (transferMemberships false
          {| where_playerId := 2; where_gte := Some 1000 |} 1
          Sample.db Sample.db)).
Proof.
  apply (proj1 (transfers_keep_roles_valid ["member"; "leader"] Sample.lower
                  false Sample.db
                  ltac:(apply (bool_decide_unpack _); vm_compute; exact I))).
Defined.

(** Hiscores that are down make the preview of request 3 fail as they do,
    though zezima is not tracked; the preview of request 1 is returned. *)
Lemma getDetails_throws_witness :
  getDetails (fun _ => Err (ServerError "Failed to load hiscores."))
    (fun _ _ => Details.mkStats 0 None []) (fun _ _ => false) unit
    (fun _ => tt) (fun _ _ => inject_Z 0) (fun _ _ => inject_Z 0) 5000 3
    Sample.db
  = Err (ServerError "Failed to load hiscores.").
Proof.
  apply (proj1 (proj2 (getDetails_throws
           (fun _ => Err (ServerError "Failed to load hiscores."))
           (fun _ _ => Details.mkStats 0 None []) (fun _ _ => false) unit
           (fun _ => tt) (fun _ _ => inject_Z 0) (fun _ _ => inject_Z 0)
           5000 3 Sample.db))
           (Sample.request 9 "zezima" "bobby" NameChange.PENDING));
    reflexivity.
Defined.

Lemma getDetails_returns_witness :
  ∃ nc d,
    getDetails Sample.emptyHiscores (fun _ _ => Details.mkStats 0 None [])
      (fun _ _ => false) unit (fun _ => tt) (fun _ _ => inject_Z 0)
      (fun _ _ => inject_Z 0) 5000 1 Sample.db = Ok (nc, d)
    ∧ Details.isNewTracked unit d = true
    ∧ Details.isNewOnHiscores unit d = false
    ∧ ∃ os, snapshotService.findLatest 1 Sample.db = Some os.
Proof.
  eexists _, _. split; [vm_compute; reflexivity|].
  match goal with
  | |- Details.isNewTracked _ ?d = _ ∧ _ =>
      destruct (getDetails_returns Sample.emptyHiscores
                  (fun _ _ => Details.mkStats 0 None []) (fun _ _ => false)
                  unit (fun _ => tt) (fun _ _ => inject_Z 0)
                  (fun _ _ => inject_Z 0) 5000 1 Sample.db _ d
                  ltac:(vm_compute; reflexivity))
        as (r & oldPlayer & os & Hr & _ & Ho & Hos & _ & Htracked & Hnew & _)
  end.
  vm_compute in Hr. injection Hr as <-.
  vm_compute in Ho. injection Ho as <-.
  split; [|split; [|by exists os]].
  - apply Htracked. exists 2, Sample.bobby. split; vm_compute; reflexivity.
  - apply not_true_is_false. intros Hon.
    apply Hnew in Hon as (h & Hh & Hne). injection Hh as <-. by apply Hne.
Defined.
